(** * PixelCube: the non-blocking four-face LED sketch, embedded in Rocq

    The development follows [src/PixelCube/PixelCube.ino] (the millis()-based
    sketch with the analog motion sensor): the frame buffer and its indexed
    painter ([fx::colorList], [fx::drawFrame]), the output fan-out
    ([fx::showOn]), the colour rotation ([rotateColors]) and one iteration of
    [loop()], written as a function from the clock value, the sensor reading
    and the sketch's globals to the new globals and the output transactions
    issued by that iteration. The hardware side of [setup()] (controllers,
    brightness, the first clear) and the older blocking sketch kept in the
    same source file are not part of the model.

    Integer widths are those of the AVR target: [uint8_t] and [uint32_t]
    are values of [Z] reduced modulo 2^8 and 2^32 where the C code wraps,
    [int] readings and thresholds are plain [Z]. *)

From Stdlib Require Import ZArith NArith Lia Bool.
From stdpp Require Import base tactics list numbers.

Local Open Scope Z_scope.

(** ** Machine integers *)

Definition wrap8 (x : Z) : Z := x mod 2 ^ 8.
Definition wrap32 (x : Z) : Z := x mod 2 ^ 32.

(** The cast [(int32_t) u] of a [uint32_t] value: two's complement. *)
Definition to_int32 (u : Z) : Z := if u <? 2 ^ 31 then u else u - 2 ^ 32.

(** [(int32_t)(now - deadline) >= 0], the rollover-safe test of the three
    deadlines of [loop()] ([blink.nextAt], [nextColorRotateAt],
    [body.nextAt]). *)
Definition due (now deadline : Z) : bool :=
  0 <=? to_int32 (wrap32 (now - deadline)).

(** ** Configuration ([#define]s of the sketch) *)

Definition FACES : nat := 4.
Definition NUM_LEDS_PER_FACE : nat := 256.
Definition BODY_PERIOD_MS : Z := 100.
Definition BODY_REPS_PER_PAIR : Z := 5.
Definition BLINK_PERIOD_MS : Z := 100.
Definition BLINK_STEPS_TOTAL : Z := 18.
Definition BLINK_DURATION_MS : Z := 3000.
Definition MOTION_TH : Z := 100.
Definition COLOR_ROTATE_IDLE_MS : Z := 30000.

(** ** Colours and faces *)

Record CRGB := mkCRGB { red : Z; green : Z; blue : Z }.

(** The FastLED colour constants the sketch uses (HTML colour codes). *)
Definition Black : CRGB := mkCRGB 0 0 0.
Definition Red : CRGB := mkCRGB 255 0 0.
Definition Magenta : CRGB := mkCRGB 255 0 255.
Definition Orange : CRGB := mkCRGB 255 165 0.
Definition Cyan : CRGB := mkCRGB 0 255 255.
Definition Blue : CRGB := mkCRGB 0 0 255.
Definition White : CRGB := mkCRGB 255 255 255.

Global Instance CRGB_inhabited : Inhabited CRGB := populate Black.

Global Instance CRGB_eq_dec : EqDecision CRGB.
Proof. solve_decision. Defined.

Inductive Face := FRONT | RIGHT | BACK | LEFT.

Global Instance Face_eq_dec : EqDecision Face.
Proof. solve_decision. Defined.

(** The numeric value of the enumerator, used to index [bodyColors]. *)
Definition face_index (f : Face) : nat :=
  match f with FRONT => 0 | RIGHT => 1 | BACK => 2 | LEFT => 3 end%nat.

(** ** Output transactions

    [EvShow f px] is one call [fx::showOn(ctrl[f])]: the controller bound to
    face [f] at setup transmits the current content [px] of the shared buffer.
    The other two events are marks left by [loop()] on the trace:
    [EvBlinkFrame s alt] at the call [renderBlinkFrameAllFaces(alt)], with
    the value [s] of [blink.step] that selected the frame, and
    [EvBodyFrame i] where a due body tick has computed the global frame
    index [i] it is about to render on the four faces. *)

Inductive event :=
| EvShow (f : Face) (px : list CRGB)
| EvBlinkFrame (s : Z) (alt : bool)
| EvBodyFrame (i : Z).

(** ** Frame buffer and indexed painter (namespace [fx]) *)

(** FastLED's [fill_solid(leds, n, c)]: [for (i = 0; i < n; ++i) leds[i] = c]. *)
Definition fill_solid (leds : list CRGB) (n : nat) (c : CRGB) : list CRGB :=
  foldl (fun b i => <[i := c]> b) leds (seq 0 n).

Module fx.

(** One iteration of the loop of [colorList]:
    [if (k < NUM_LEDS_PER_FACE) leds[k] = c]. *)
Definition paint (c : CRGB) (leds : list CRGB) (k : N) : list CRGB :=
  if (k <? N.of_nat NUM_LEDS_PER_FACE)%N then <[N.to_nat k := c]> leds
  else leds.

(** [colorList(idx, c)]: the table is read front to back. *)
Definition colorList (idx : list N) (c : CRGB) (leds : list CRGB)
  : list CRGB :=
  foldl (paint c) leds idx.

(** [drawFrame(A, cA, B, cB, C, cC)]. *)
Definition drawFrame (A : list N) (cA : CRGB) (B : list N) (cB : CRGB)
    (C : list N) (cC : CRGB) (leds : list CRGB) : list CRGB :=
  let leds := fill_solid leds NUM_LEDS_PER_FACE Black in
  let leds := colorList A cA leds in
  let leds := colorList B cB leds in
  colorList C cC leds.

(** [showOn(ctrl[f])] does not touch the buffer. *)
Definition showOn (f : Face) (leds : list CRGB) : event := EvShow f leds.

End fx.

(** ** Animation content (PROGMEM tables) *)

Definition eye_white_1 : list N :=
  [ 35; 51; 55; 54; 64; 65; 66; 67; 68; 84; 83; 82; 125; 145; 144; 141; 154;
    155; 156; 157; 158; 174; 173; 172 ]%N.

Definition eye_white_2 : list N :=
  [ 65; 66; 67; 81; 82; 83; 84; 85; 94; 95; 98; 114; 155; 156; 157; 171; 172;
    173; 174; 175; 184; 185; 188; 204 ]%N.

Definition eyes_1 : list N :=
  [ 36; 53; 126; 143; 37; 52; 127; 142 ]%N.

Definition eyes_2 : list N :=
  [ 96; 113; 186; 203; 97; 112; 187; 202 ]%N.

Definition body_1 : list N :=
  [ 15; 16; 17; 18; 19; 20; 21; 22; 34; 38; 39; 40; 41; 42; 43; 47; 48; 49; 50;
    56; 62; 63; 69; 70; 71; 72; 73; 75; 76; 77; 78; 79; 80; 81; 85; 86; 87;
    91; 92; 93; 94; 95; 96; 97; 98; 99; 100; 101; 102; 103; 104; 107; 108;
    109; 110; 111; 112; 113; 114; 115; 116; 117; 118; 121; 122; 123; 124;
    128; 129; 130; 131; 132; 135; 136; 137; 138; 139; 140; 146; 147; 148;
    152; 153; 159; 160; 161; 162; 163; 164; 166; 167; 168; 169; 170; 171;
    175; 176; 177; 183; 184; 185; 186; 187; 188; 189; 190; 191; 192; 196;
    197; 198; 199; 200; 201; 202; 203; 204; 205; 217; 218; 219; 220; 221;
    222; 223; 224 ]%N.

Definition body_2 : list N :=
  [ 16; 17; 18; 19; 20; 21; 22; 34; 38; 39; 40; 41; 42; 43; 44; 45; 46; 47; 48;
    49; 50; 56; 62; 63; 69; 70; 71; 72; 73; 77; 78; 79; 80; 81; 85; 86; 87;
    91; 92; 93; 94; 95; 96; 97; 98; 99; 100; 101; 102; 103; 105; 106; 107;
    108; 109; 110; 111; 112; 113; 114; 115; 116; 117; 118; 121; 122; 123;
    124; 128; 129; 130; 131; 132; 133; 134; 136; 137; 138; 139; 140; 146;
    147; 148; 152; 153; 159; 160; 161; 162; 166; 167; 168; 169; 170; 171;
    175; 176; 177; 183; 184; 185; 186; 187; 188; 189; 190; 191; 192; 193;
    194; 195; 196; 197; 198; 199; 200; 201; 202; 203; 204; 205; 217; 218;
    219; 220; 221; 222; 223 ]%N.

Definition body_3 : list N :=
  [ 15; 16; 17; 18; 19; 20; 21; 22; 34; 35; 36; 37; 38; 39; 40; 41; 42; 43; 47;
    48; 49; 50; 51; 52; 53; 54; 55; 56; 62; 63; 64; 68; 69; 70; 71; 72; 73;
    75; 76; 77; 78; 79; 80; 86; 87; 91; 92; 93; 99; 100; 101; 102; 103; 104;
    107; 108; 109; 110; 111; 115; 116; 117; 118; 121; 122; 123; 124; 125;
    126; 127; 128; 129; 130; 131; 132; 135; 136; 137; 138; 139; 140; 141;
    142; 143; 144; 145; 146; 147; 148; 152; 153; 154; 158; 159; 160; 161;
    162; 163; 164; 166; 167; 168; 169; 170; 176; 177; 183; 189; 190; 191;
    192; 196; 197; 198; 199; 200; 201; 205; 217; 218; 219; 220; 221; 222;
    223; 224 ]%N.

Definition body_4 : list N :=
  [ 16; 17; 18; 19; 20; 21; 22; 34; 35; 36; 37; 38; 39; 40; 41; 42; 43; 44; 45;
    46; 47; 48; 49; 50; 51; 52; 53; 54; 55; 56; 62; 63; 64; 68; 69; 70; 71;
    72; 73; 77; 78; 79; 80; 86; 87; 91; 92; 93; 99; 100; 101; 102; 103; 105;
    106; 107; 108; 109; 110; 111; 115; 116; 117; 118; 121; 122; 123; 124;
    125; 126; 127; 128; 129; 130; 131; 132; 133; 134; 136; 137; 138; 139;
    140; 141; 142; 143; 144; 145; 146; 147; 148; 152; 153; 154; 158; 159;
    160; 161; 162; 166; 167; 168; 169; 170; 176; 177; 183; 189; 190; 191;
    192; 193; 194; 195; 196; 197; 198; 199; 200; 201; 205; 217; 218; 219;
    220; 221; 222; 223 ]%N.

Definition dead_fantom_1 : list N :=
  [ 15; 16; 17; 18; 19; 20; 21; 22; 34; 35; 36; 37; 38; 39; 40; 42; 43; 47; 48;
    50; 51; 52; 53; 54; 55; 56; 62; 63; 64; 65; 66; 67; 68; 69; 71; 72; 73;
    75; 76; 77; 79; 80; 81; 84; 85; 86; 87; 91; 92; 93; 94; 95; 98; 99; 100;
    103; 104; 107; 108; 110; 111; 112; 113; 114; 115; 116; 117; 118; 121;
    122; 123; 124; 125; 126; 127; 128; 129; 131; 132; 135; 136; 137; 139;
    140; 141; 144; 145; 146; 147; 148; 152; 153; 154; 155; 158; 159; 160;
    162; 163; 164; 166; 167; 168; 170; 171; 172; 173; 174; 175; 176; 177;
    184; 185; 186; 187; 188; 189; 190; 191; 192; 196; 197; 199; 200; 201;
    202; 203; 204; 205; 217; 218; 219; 220; 221; 222; 223; 224 ]%N.

Definition dead_fantom_2 : list N :=
  [ 16; 17; 18; 19; 20; 21; 22; 34; 35; 36; 37; 38; 39; 40; 42; 43; 44; 45; 46;
    47; 48; 50; 51; 52; 53; 54; 55; 56; 62; 63; 64; 65; 66; 67; 68; 69; 71;
    72; 73; 77; 79; 80; 81; 84; 85; 86; 87; 91; 92; 93; 94; 95; 98; 99; 100;
    102; 103; 105; 106; 108; 110; 111; 112; 113; 114; 115; 116; 117; 118;
    121; 122; 123; 124; 125; 126; 127; 128; 129; 131; 132; 133; 134; 136;
    137; 139; 140; 141; 144; 145; 146; 147; 148; 152; 153; 154; 155; 158;
    159; 160; 162; 166; 167; 168; 170; 171; 172; 173; 174; 175; 176; 177;
    184; 185; 186; 187; 188; 189; 190; 191; 192; 193; 194; 195; 196; 197;
    199; 200; 201; 202; 203; 204; 205; 217; 218; 219; 220; 221; 222; 223 ]%N.

Definition fantom_eyes_mouth : list N :=
  [ 41; 49; 70; 78; 82; 83; 96; 97; 101; 109; 130; 138; 142; 143; 156; 157;
    161; 169; 190; 198 ]%N.

Definition dummy : list N :=
  [ 0 ]%N.

(** ** Globals of the sketch *)

Module Body.
Record t := mk {
  pair : Z;        (* uint8_t: 0 => frames 1<->2, 1 => frames 3<->4 *)
  stepInPair : Z;  (* uint8_t: toggles 0/1 *)
  repsInPair : Z;  (* uint8_t: round trips completed in the pair *)
  nextAt : Z       (* uint32_t: next time to step *)
}.
End Body.

Module Blink.
Record t := mk {
  active : bool;   (* ghost blink currently displayed *)
  step : Z;        (* uint8_t: 0..BLINK_STEPS_TOTAL-1 *)
  nextAt : Z;      (* uint32_t: next time to toggle the ghost frame *)
  stopAt : Z       (* uint32_t: absolute time when the blink must stop *)
}.
End Blink.

Record Globals := mkGlobals {
  leds : list CRGB;          (* CRGB leds[NUM_LEDS_PER_FACE] *)
  bodyColors : list CRGB;    (* CRGB bodyColors[FACES] *)
  nextColorRotateAt : Z;     (* uint32_t *)
  body : Body.t;
  blink : Blink.t;
  presence : bool;
  lastStep : Z               (* static uint8_t lastStep of loop() *)
}.

Definition set_leds (l : list CRGB) (g : Globals) : Globals :=
  mkGlobals l (bodyColors g) (nextColorRotateAt g) (body g) (blink g)
            (presence g) (lastStep g).
Definition set_bodyColors (c : list CRGB) (g : Globals) : Globals :=
  mkGlobals (leds g) c (nextColorRotateAt g) (body g) (blink g)
            (presence g) (lastStep g).
Definition set_nextColorRotateAt (t : Z) (g : Globals) : Globals :=
  mkGlobals (leds g) (bodyColors g) t (body g) (blink g)
            (presence g) (lastStep g).
Definition set_body (b : Body.t) (g : Globals) : Globals :=
  mkGlobals (leds g) (bodyColors g) (nextColorRotateAt g) b (blink g)
            (presence g) (lastStep g).
Definition set_blink (b : Blink.t) (g : Globals) : Globals :=
  mkGlobals (leds g) (bodyColors g) (nextColorRotateAt g) (body g) b
            (presence g) (lastStep g).
Definition set_presence (p : bool) (g : Globals) : Globals :=
  mkGlobals (leds g) (bodyColors g) (nextColorRotateAt g) (body g) (blink g)
            p (lastStep g).
Definition set_lastStep (s : Z) (g : Globals) : Globals :=
  mkGlobals (leds g) (bodyColors g) (nextColorRotateAt g) (body g) (blink g)
            (presence g) s.

(** The static initialisers. *)
Definition initial : Globals :=
  mkGlobals (replicate NUM_LEDS_PER_FACE Black)
            [Red; Magenta; Orange; Cyan]
            0
            (Body.mk 0 0 0 0)
            (Blink.mk false 0 0 0)
            false
            1.

(** What [setup()] leaves in the globals when [millis()] returns [now]. *)
Definition setup (now : Z) (g : Globals) : Globals :=
  let g := set_leds (fill_solid (leds g) NUM_LEDS_PER_FACE Black) g in
  let g := set_body (Body.mk (Body.pair (body g)) (Body.stepInPair (body g))
                             (Body.repsInPair (body g))
                             (wrap32 (now + BODY_PERIOD_MS))) g in
  set_nextColorRotateAt (wrap32 (now + COLOR_ROTATE_IDLE_MS)) g.

(** ** Colour rotation *)

(** The loop [for (int i = FACES - 1; i > 0; --i) bodyColors[i] = bodyColors[i - 1]],
    entered with counter [i]. *)
Fixpoint rotate_shift (i : nat) (c : list CRGB) : list CRGB :=
  match i with
  | O => c
  | S j => rotate_shift j (<[S j := c !!! j]> c)
  end.

Definition rotateColors (c : list CRGB) : list CRGB :=
  let tmp := c !!! (FACES - 1)%nat in
  let c := rotate_shift (FACES - 1) c in
  <[0%nat := tmp]> c.

(** ** Rendering *)

(** [renderBodyFrameForFace(f, globalFrameIndex)]: the new buffer and the
    transaction that publishes it. *)
Definition renderBodyFrameForFace (f : Face) (globalFrameIndex : Z)
    (colors : list CRGB) (px : list CRGB) : list CRGB * list event :=
  let eyesColor := Blue in
  let white := White in
  let c := colors !!! face_index f in
  let px :=
    if globalFrameIndex =? 0 then
      fx.drawFrame body_1 c eye_white_1 white eyes_1 eyesColor px
    else if globalFrameIndex =? 1 then
      fx.drawFrame body_2 c eye_white_1 white eyes_1 eyesColor px
    else if globalFrameIndex =? 2 then
      fx.drawFrame body_3 c eye_white_2 white eyes_2 eyesColor px
    else
      fx.drawFrame body_4 c eye_white_2 white eyes_2 eyesColor px in
  (px, [fx.showOn f px]).

(** [renderBlinkFrameAllFaces(useAlt)]. *)
Definition renderBlinkFrameAllFaces (useAlt : bool) (px : list CRGB)
    : list CRGB * list event :=
  let eyesMouth := Red in
  let body1 := Blue in
  let body2 := White in
  let px :=
    if negb useAlt then
      fx.drawFrame dead_fantom_1 body1 fantom_eyes_mouth eyesMouth dummy Black px
    else
      fx.drawFrame dead_fantom_2 body2 fantom_eyes_mouth eyesMouth dummy Black px in
  (px, [fx.showOn FRONT px; fx.showOn RIGHT px;
        fx.showOn LEFT px; fx.showOn BACK px]).

(** ** Presence detection with hysteresis (first block of [loop()]) *)

(** [HYST = max(4, TH_ON / 3)] and [TH_OFF = max(0, TH_ON - HYST)], on C
    [int]s: the division truncates toward zero. *)
Definition HYST (th_on : Z) : Z := Z.max 4 (th_on ÷ 3).
Definition TH_OFF (th_on : Z) : Z := Z.max 0 (th_on - HYST th_on).

(** The [if / else if] that updates the [presence] latch from the reading. *)
Definition debounce (th_on motionVal : Z) (presence : bool) : bool :=
  if negb presence && (th_on <=? motionVal) then true
  else if presence && (motionVal <=? TH_OFF th_on) then false
  else presence.

(** [!wasPresent && presence], the test that guards the rising-edge block. *)
Definition rising (wasPresent presence : bool) : bool :=
  negb wasPresent && presence.

(** The mirrored transition (the branch commented "falling level"); the
    sketch takes no action on it. *)
Definition falling (wasPresent presence : bool) : bool :=
  wasPresent && negb presence.

(** What the detection block yields on one reading: the new level and the
    two transitions. *)
Record Sample := mkSample { level : bool; rose : bool; fell : bool }.

Definition sample (th_on motionVal : Z) (wasPresent : bool) : Sample :=
  let p := debounce th_on motionVal wasPresent in
  mkSample p (rising wasPresent p) (falling wasPresent p).

(** The detection block fed a sequence of readings, one per iteration. *)
Fixpoint debounce_trace (th_on : Z) (p : bool) (readings : list Z)
    : list Sample :=
  match readings with
  | [] => []
  | v :: readings =>
      let s := sample th_on v p in
      s :: debounce_trace th_on (level s) readings
  end.

Definition rising_at (th_on : Z) (p : bool) (readings : list Z) (i : nat)
    : bool :=
  from_option rose false (debounce_trace th_on p readings !! i).

Definition falling_at (th_on : Z) (p : bool) (readings : list Z) (i : nat)
    : bool :=
  from_option fell false (debounce_trace th_on p readings !! i).

(** No reading of the sequence produces a rising edge. *)
Definition no_rising (th_on : Z) (p : bool) (readings : list Z) : bool :=
  forallb (fun s => negb (rose s)) (debounce_trace th_on p readings).

(** ** One iteration of [loop()] *)

(** The rising-edge block: rotate once, start a fixed-length blink, push the
    idle rotation out. *)
Definition startBlink (now : Z) (g : Globals) : Globals :=
  let g := set_bodyColors (rotateColors (bodyColors g)) g in
  let g := set_blink (Blink.mk true 0 now (wrap32 (now + BLINK_DURATION_MS))) g in
  set_nextColorRotateAt (wrap32 (now + COLOR_ROTATE_IDLE_MS)) g.

(** The inner [if] of the blink block: render a ghost frame when it is due. *)
Definition blinkFrame (now : Z) (g : Globals) : Globals * list event :=
  let b := blink g in
  if due now (Blink.nextAt b) then
    let useAlt := negb (Z.land (Blink.step b) 1 =? 0) in
    let '(px, evs) := renderBlinkFrameAllFaces useAlt (leds g) in
    let g := set_leds px g in
    let g := set_blink (Blink.mk (Blink.active b)
                          (wrap8 (Z.rem (Blink.step b + 1) BLINK_STEPS_TOTAL))
                          (wrap32 (now + BLINK_PERIOD_MS))
                          (Blink.stopAt b)) g in
    (g, EvBlinkFrame (Blink.step b) useAlt :: evs)
  else (g, []).

(** The blink block, with its stop test [(int32_t)(now - blink.stopAt) < 0];
    the boolean tells whether [loop()] returned from it. *)
Definition blinkBlock (now : Z) (g : Globals) : Globals * list event * bool :=
  if Blink.active (blink g) then
    let '(g, evs) := blinkFrame now g in
    let b := blink g in
    if to_int32 (wrap32 (now - Blink.stopAt b)) <? 0 then (g, evs, true)
    else
      (set_blink (Blink.mk false (Blink.step b) (Blink.nextAt b)
                           (Blink.stopAt b)) g, evs, false)
  else (g, [], false).

(** Idle colour rotation. *)
Definition idleRotation (now : Z) (g : Globals) : Globals :=
  if due now (nextColorRotateAt g) then
    let g := set_bodyColors (rotateColors (bodyColors g)) g in
    set_nextColorRotateAt (wrap32 (now + COLOR_ROTATE_IDLE_MS)) g
  else g.

(** The counters of the body animation on a due tick: the new [body] (its
    [nextAt] is rescheduled by the caller) and the new [lastStep]. *)
Definition bodyStep (b : Body.t) (lastStep : Z) : Body.t * Z :=
  let stepInPair := Z.lxor (Body.stepInPair b) 1 in
  let '(reps, pr) :=
    if (stepInPair =? 0) && (lastStep =? 1) then
      let incremented := wrap8 (Body.repsInPair b + 1) in
      if BODY_REPS_PER_PAIR <=? incremented then (0, Z.lxor (Body.pair b) 1)
      else (incremented, Body.pair b)
    else (Body.repsInPair b, Body.pair b) in
  (Body.mk pr stepInPair reps (Body.nextAt b), stepInPair).

(** Map (pair, step) to a global frame index 0..3. *)
Definition globalFrameIndex (b : Body.t) : Z :=
  if Body.pair b =? 0 then (if Body.stepInPair b =? 0 then 0 else 1)
  else (if Body.stepInPair b =? 0 then 2 else 3).

(** The four per-face renders of a body tick, in the order of the calls. *)
Definition renderBodyAllFaces (idx : Z) (colors px : list CRGB)
    : list CRGB * list event :=
  let '(px, e1) := renderBodyFrameForFace RIGHT idx colors px in
  let '(px, e2) := renderBodyFrameForFace LEFT idx colors px in
  let '(px, e3) := renderBodyFrameForFace BACK idx colors px in
  let '(px, e4) := renderBodyFrameForFace FRONT idx colors px in
  (px, e1 ++ e2 ++ e3 ++ e4).

(** The body block. *)
Definition bodyBlock (now : Z) (g : Globals) : Globals * list event :=
  if due now (Body.nextAt (body g)) then
    let '(b, ls) := bodyStep (body g) (lastStep g) in
    let g := set_lastStep ls (set_body b g) in
    let idx := globalFrameIndex b in
    let '(px, evs) := renderBodyAllFaces idx (bodyColors g) (leds g) in
    let g := set_leds px g in
    let g := set_body (Body.mk (Body.pair b) (Body.stepInPair b)
                               (Body.repsInPair b)
                               (wrap32 (now + BODY_PERIOD_MS))) g in
    (g, EvBodyFrame idx :: evs)
  else (g, []).

(** [loop()], entered when [millis()] returns [now] and
    [analogRead(MOTION_PIN)] returns [motionVal]. *)
Definition loop (now motionVal : Z) (g : Globals) : Globals * list event :=
  let wasPresent := presence g in
  let g := set_presence (debounce MOTION_TH motionVal (presence g)) g in
  let g := if rising wasPresent (presence g) then startBlink now g else g in
  let '(g, evs, returned) := blinkBlock now g in
  if returned then (g, evs)
  else
    let g := idleRotation now g in
    let '(g, evs') := bodyBlock now g in
    (g, evs ++ evs').

(** [loop()] called once per entry of [ticks], each entry giving the clock
    value and the sensor reading of that iteration; the result lists, per
    iteration, the globals it leaves and the events it issues. *)
Fixpoint run (ticks : list (Z * Z)) (g : Globals)
    : list (Globals * list event) :=
  match ticks with
  | [] => []
  | (now, motionVal) :: ticks =>
      let r := loop now motionVal g in
      r :: run ticks (fst r)
  end.


(** ** Observations on traces *)

Definition shown_faces (evs : list event) : list Face :=
  omap (fun e => match e with EvShow f _ => Some f | _ => None end) evs.

Definition blink_frames (evs : list event) : list (Z * bool) :=
  omap (fun e => match e with EvBlinkFrame s a => Some (s, a) | _ => None end)
       evs.

Definition body_frames (evs : list event) : list Z :=
  omap (fun e => match e with EvBodyFrame i => Some i | _ => None end) evs.

(** The clock values [t0, t0+1, ...], one per reading. *)
Fixpoint every_ms (t0 : Z) (readings : list Z) : list (Z * Z) :=
  match readings with
  | [] => []
  | v :: readings => (t0, v) :: every_ms (t0 + 1) readings
  end.

(** The alert timeline seen alone: what the blink block does to [blink] on
    an iteration that brings no rising edge, and the frame it renders. The
    lemma [loop_quiet_tick] below proves that [loop()] follows it. *)
Definition alert_tick (now : Z) (b : Blink.t) : Blink.t * list (Z * bool) :=
  if Blink.active b then
    let '(b, frames) :=
      if due now (Blink.nextAt b) then
        (Blink.mk (Blink.active b)
                  (wrap8 (Z.rem (Blink.step b + 1) BLINK_STEPS_TOTAL))
                  (wrap32 (now + BLINK_PERIOD_MS))
                  (Blink.stopAt b),
         [(Blink.step b, negb (Z.land (Blink.step b) 1 =? 0))])
      else (b, []) in
    if due now (Blink.stopAt b)
    then (Blink.mk false (Blink.step b) (Blink.nextAt b) (Blink.stopAt b),
          frames)
    else (b, frames)
  else (b, []).

Fixpoint alert_run (times : list Z) (b : Blink.t)
    : list (Blink.t * list (Z * bool)) :=
  match times with
  | [] => []
  | now :: times =>
      let r := alert_tick now b in
      r :: alert_run times (fst r)
  end.

(** The clock values [t0, t0+1, ..., t0+n-1]. *)
Fixpoint clock (t0 : Z) (n : nat) : list Z :=
  match n with
  | O => []
  | S n => t0 :: clock (t0 + 1) n
  end.

(** The body counters after [n] due ticks. *)
Definition body_ticks (n : nat) (b : Body.t) (lastStep : Z) : Body.t * Z :=
  Nat.iter n (fun s => bodyStep (fst s) (snd s)) (b, lastStep).

(** ** The painter as the specification words it

    [renderFrame] composes any number of (index set, colour) pairs: clear to
    black, then paint each pair in the given order. [drawFrame] is its
    three-pair instance. *)
Definition paint_pairs (pairs : list (list N * CRGB)) (b : list CRGB)
    : list CRGB :=
  foldl (fun b p => fx.colorList (fst p) (snd p) b) b pairs.

Definition renderFrame (pairs : list (list N * CRGB)) (px : list CRGB)
    : list CRGB :=
  paint_pairs pairs (fill_solid px NUM_LEDS_PER_FACE Black).

(** ** Consistency of the globals

    The ranges the declarations and their comments give to the globals: the
    two arrays keep their sizes, [blink.step] stays in
    0..BLINK_STEPS_TOTAL-1, the body selectors are bits, the repetition
    count stays below BODY_REPS_PER_PAIR, and the four deadlines are 32-bit
    clock values. *)
Definition consistent (g : Globals) : Prop :=
  length (leds g) = NUM_LEDS_PER_FACE
  /\ length (bodyColors g) = FACES
  /\ 0 <= Blink.step (blink g) < BLINK_STEPS_TOTAL
  /\ 0 <= Body.pair (body g) <= 1
  /\ 0 <= Body.stepInPair (body g) <= 1
  /\ 0 <= Body.repsInPair (body g) < BODY_REPS_PER_PAIR
  /\ 0 <= lastStep g <= 1
  /\ 0 <= nextColorRotateAt g < 2 ^ 32
  /\ 0 <= Body.nextAt (body g) < 2 ^ 32
  /\ 0 <= Blink.nextAt (blink g) < 2 ^ 32
  /\ 0 <= Blink.stopAt (blink g) < 2 ^ 32.

Global Instance consistent_dec g : Decision (consistent g).
Proof. unfold consistent. apply _. Defined.

(** The buffers handed to the controllers, in the order of the calls. *)
Definition shown_buffers (evs : list event) : list (list CRGB) :=
  omap (fun e => match e with EvShow _ px => Some px | _ => None end) evs.

(** ** The blocking sketch

    The same source file keeps the earlier, [delay()]-based sketch. Its
    painter has one more helper, [fx::colorRange], and its alert is the
    blocking [ghostBlink()]; both work on the same buffer and the same
    tables. Its [loop()], [smartDelay()] and [handlePir()] poll a flag set by
    an interrupt handler and are not modelled. *)

(** The loop of [colorRange],
    [for (uint16_t i = a; i <= b && i < NUM_LEDS_PER_FACE; ++i) leds[i] = c],
    entered with counter [i]; [fuel] bounds the number of iterations. *)
Fixpoint colorRange_loop (fuel : nat) (i b : N) (c : CRGB)
    (px : list CRGB) : list CRGB :=
  match fuel with
  | O => px
  | S fuel =>
      if ((i <=? b) && (i <? N.of_nat NUM_LEDS_PER_FACE))%N
      then colorRange_loop fuel ((i + 1) mod 2 ^ 16)%N b c
                           (<[N.to_nat i := c]> px)
      else px
  end.

(** [colorRange(a, b, c)]: the bounds are swapped when [a > b]. The loop
    leaves after at most NUM_LEDS_PER_FACE iterations, so one more unit of
    fuel lets it reach its exit test. *)
Definition colorRange (a b : N) (c : CRGB) (px : list CRGB) : list CRGB :=
  let '(a, b) := if (b <? a)%N then (b, a) else (a, b) in
  colorRange_loop (S NUM_LEDS_PER_FACE) a b c px.

(** What the blocking sketch does in sequence: an output transaction or a
    call [delay(ms)]. *)
Inductive action :=
| Out (e : event)
| Delay (ms : Z).

(** One iteration of the loop of [ghostBlink()]. *)
Definition ghostBlink_body (px : list CRGB) : list CRGB * list action :=
  let px := fx.drawFrame dead_fantom_1 Blue fantom_eyes_mouth Red dummy Black
                         px in
  let first := [Out (fx.showOn FRONT px); Out (fx.showOn RIGHT px);
                Out (fx.showOn LEFT px); Out (fx.showOn BACK px);
                Delay 100] in
  let px := fx.drawFrame dead_fantom_2 White fantom_eyes_mouth Red dummy Black
                         px in
  let second := [Out (fx.showOn FRONT px); Out (fx.showOn RIGHT px);
                 Out (fx.showOn LEFT px); Out (fx.showOn BACK px);
                 Delay 100] in
  (px, first ++ second).

Fixpoint ghostBlink_loop (n : nat) (px : list CRGB)
    : list CRGB * list action :=
  match n with
  | O => (px, [])
  | S n =>
      let '(px, acts) := ghostBlink_body px in
      let '(px, acts') := ghostBlink_loop n px in
      (px, acts ++ acts')
  end.

(** [ghostBlink()]: [for (int i = 0; i <= 8; i++)], nine iterations. *)
Definition ghostBlink (px : list CRGB) : list CRGB * list action :=
  ghostBlink_loop 9 px.

(** * Properties *)

(** ** Clock arithmetic *)

Lemma wrap32_range x : 0 <= wrap32 x < 2 ^ 32.
Proof. unfold wrap32. apply Z.mod_pos_bound. lia. Qed.

Lemma wrap32_sub_idemp a b : wrap32 (wrap32 a - wrap32 b) = wrap32 (a - b).
Proof. unfold wrap32. symmetry. apply Zminus_mod. Qed.

Lemma due_spec now deadline :
  due now deadline = true <-> wrap32 (now - deadline) < 2 ^ 31.
Proof.
  unfold due, to_int32. pose proof (wrap32_range (now - deadline)) as Hr.
  destruct (Z.ltb_spec (wrap32 (now - deadline)) (2 ^ 31)) as [Hlt | Hge].
  - rewrite Z.leb_le. lia.
  - rewrite Z.leb_le. change (2 ^ 32) with 4294967296 in *.
    change (2 ^ 31) with 2147483648 in *. lia.
Qed.

(** C7. For clock values that are the 32-bit images of two unbounded
    logical times less than 2^31 apart, the check
    [(int32)(now - deadline) >= 0] holds exactly when the logical time of
    [now] is at or past that of the deadline; a deadline computed just below
    the wrap (2^32 - 6 + 100, stored as 94) is not due just before the wrap
    nor just after it and becomes due at 94, and the deadline 2^32 - 1 is
    due at the wrap and after it but not before. *)
Theorem due_wraparound_safe (T_now T_deadline : Z)
    (Hclose : Z.abs (T_now - T_deadline) < 2 ^ 31) :
  (due (wrap32 T_now) (wrap32 T_deadline) = true <-> T_deadline <= T_now)
  /\ (let d := wrap32 (4294967290 + BODY_PERIOD_MS) in
      d = 94 /\ due 4294967295 d = false /\ due 0 d = false
      /\ due 93 d = false /\ due 94 d = true)
  /\ (due 4294967294 4294967295 = false /\ due 4294967295 4294967295 = true
      /\ due 0 4294967295 = true /\ due 5 4294967295 = true).
Proof.
  split; [| split; vm_compute; repeat split; reflexivity ].
  rewrite due_spec, wrap32_sub_idemp. unfold wrap32.
  change (2 ^ 32) with 4294967296. change (2 ^ 31) with 2147483648 in *.
  pose proof (Z.mod_pos_bound (T_now - T_deadline) 4294967296 ltac:(lia)).
  pose proof (Z.div_mod (T_now - T_deadline) 4294967296 ltac:(lia)).
  split; intros; Z.div_mod_to_equations; lia.
Qed.

Lemma due_wraparound_safe_witness :
  due (wrap32 4294967301) (wrap32 4294967290) = true <-> 4294967290 <= 4294967301.
Proof.
  apply (due_wraparound_safe 4294967301 4294967290). vm_compute. reflexivity.
Defined.

(** ** Thresholds *)

(** C8. For every on-threshold of at least 1 the derived off-threshold is
    max(0, on - max(4, on/3)), is not negative, and is strictly below the
    on-threshold. *)
Theorem TH_OFF_below_TH_ON (th_on : Z) (Hon : 1 <= th_on) :
  TH_OFF th_on = Z.max 0 (th_on - Z.max 4 (th_on / 3))
  /\ 0 <= TH_OFF th_on
  /\ TH_OFF th_on < th_on.
Proof.
  unfold TH_OFF, HYST. rewrite Z.quot_div_nonneg by lia.
  repeat split; lia.
Qed.

Lemma TH_OFF_below_TH_ON_witness :
  TH_OFF MOTION_TH = Z.max 0 (MOTION_TH - Z.max 4 (MOTION_TH / 3))
  /\ 0 <= TH_OFF MOTION_TH
  /\ TH_OFF MOTION_TH < MOTION_TH.
Proof. apply (TH_OFF_below_TH_ON MOTION_TH). unfold MOTION_TH. lia. Defined.

(** ** Colour rotation *)

(** C10. One rotation turns the assignment [Red, Magenta, Orange, Cyan] of
    the faces FRONT, RIGHT, BACK, LEFT into [Cyan, Red, Magenta, Orange]; on
    any assignment it is the circular shift by one position, every face
    taking the colour its cyclic predecessor held. *)
Theorem rotateColors_circular_shift (a b c d : CRGB) :
  rotateColors [Red; Magenta; Orange; Cyan] = [Cyan; Red; Magenta; Orange]
  /\ rotateColors [a; b; c; d] = [d; a; b; c]
  /\ rotateColors [a; b; c; d]
     = map (fun i => [a; b; c; d] !!! ((i + 3) mod 4)%nat) (seq 0 FACES)
  /\ bodyColors initial = [Red; Magenta; Orange; Cyan].
Proof. repeat split; reflexivity. Qed.

(** ** The motion debouncer *)

(** C2 (as the code has it). With the on-threshold 100 (off-threshold
    100 - max(4, 33) = 67) the readings 50, 100, 80, 67, 66 fed from
    presence = false give the levels false, true, true, false, false: the
    only rising edge is at the second sample and the only falling edge at
    the fourth, the reading 67 being at most the off-threshold 67;
    [loop()] run on these readings latches the same levels. *)
Theorem debounce_scenario :
  MOTION_TH = 100 /\ HYST 100 = 33 /\ TH_OFF 100 = 67
  /\ debounce_trace 100 false [50; 100; 80; 67; 66]
     = [ mkSample false false false; mkSample true true false;
         mkSample true false false; mkSample false false true;
         mkSample false false false ]
  /\ map (fun r => presence (fst r))
         (run (every_ms 1 [50; 100; 80; 67; 66]) (setup 0 initial))
     = [false; true; true; false; false].
Proof. repeat split; vm_compute; reflexivity. Qed.

(** C2 as stated fails: the levels are not false, true, true, true, false;
    the level falls at the fourth sample (index 3) and no falling edge is
    left for the fifth. *)
Lemma debounce_scenario_falls_at_fourth :
  map level (debounce_trace 100 false [50; 100; 80; 67; 66])
    <> [false; true; true; true; false]
  /\ falling_at 100 false [50; 100; 80; 67; 66] 3 = true
  /\ falling_at 100 false [50; 100; 80; 67; 66] 4 = false.
Proof. repeat split; vm_compute; congruence. Qed.

Lemma debounce_cases th_on v (p : bool) :
  debounce th_on v p
  = if p then negb (v <=? TH_OFF th_on) else (th_on <=? v).
Proof.
  unfold debounce. destruct p; simpl.
  - destruct (v <=? TH_OFF th_on); reflexivity.
  - destruct (th_on <=? v); reflexivity.
Qed.

Lemma rising_at_cons th_on p v rs j :
  rising_at th_on p (v :: rs) (S j)
  = rising_at th_on (debounce th_on v p) rs j.
Proof. reflexivity. Qed.

Lemma falling_at_cons th_on p v rs j :
  falling_at th_on p (v :: rs) (S j)
  = falling_at th_on (debounce th_on v p) rs j.
Proof. reflexivity. Qed.

(** Once present, the level must fall before it can rise. *)
Lemma rising_after_present th_on rs :
  forall j, rising_at th_on true rs j = true ->
  exists k, (k < j)%nat /\ falling_at th_on true rs k = true.
Proof.
  induction rs as [| v rs IH]; intros j Hj.
  - destruct j; discriminate.
  - destruct j as [| j].
    + discriminate.
    + rewrite rising_at_cons in Hj.
      destruct (debounce th_on v true) eqn:Hd.
      * destruct (IH j Hj) as (k & Hk & Hf). exists (S k). split; [lia |].
        rewrite falling_at_cons, Hd. exact Hf.
      * exists 0%nat. split; [lia |].
        unfold falling_at. simpl. unfold falling. rewrite Hd. reflexivity.
Qed.

Lemma falling_between_risings th_on rs :
  forall p i j, (i < j)%nat ->
  rising_at th_on p rs i = true -> rising_at th_on p rs j = true ->
  exists k, (i < k < j)%nat /\ falling_at th_on p rs k = true.
Proof.
  induction rs as [| v rs IH]; intros p i j Hij Hi Hj.
  - destruct i; discriminate.
  - destruct j as [| j]; [lia |]. rewrite rising_at_cons in Hj.
    destruct i as [| i].
    + assert (debounce th_on v p = true) as Hd.
      { unfold rising_at in Hi. simpl in Hi. unfold rising in Hi.
        apply andb_true_iff in Hi. tauto. }
      rewrite Hd in Hj.
      destruct (rising_after_present th_on rs j Hj) as (k & Hk & Hf).
      exists (S k). split; [lia |]. rewrite falling_at_cons, Hd. exact Hf.
    + rewrite rising_at_cons in Hi.
      destruct (IH _ i j ltac:(lia) Hi Hj) as (k & Hk & Hf).
      exists (S k). split; [lia |]. rewrite falling_at_cons. exact Hf.
Qed.

(** C5. Whatever the reading and the previous level, the latch goes to
    present exactly when it was absent and the reading is at least the
    on-threshold, goes to absent exactly when it was present and the reading
    is at most the off-threshold, and holds otherwise; a rising edge is
    reported exactly when the level was absent and the reading is at least
    the on-threshold; and between two rising edges of any sequence of
    readings there is a falling edge. *)
Theorem debounce_hysteresis (th_on : Z) :
  (forall (v : Z) (p : bool),
      (p = false /\ debounce th_on v p = true <-> p = false /\ th_on <= v)
      /\ (p = true /\ debounce th_on v p = false
          <-> p = true /\ v <= TH_OFF th_on)
      /\ (~ (p = false /\ th_on <= v) -> ~ (p = true /\ v <= TH_OFF th_on) ->
          debounce th_on v p = p)
      /\ (rose (sample th_on v p) = true <-> p = false /\ th_on <= v)
      /\ (fell (sample th_on v p) = true <-> p = true /\ v <= TH_OFF th_on))
  /\ (forall (p0 : bool) (readings : list Z) (i j : nat),
        (i < j)%nat ->
        rising_at th_on p0 readings i = true ->
        rising_at th_on p0 readings j = true ->
        exists k, (i < k < j)%nat /\ falling_at th_on p0 readings k = true).
Proof.
  split.
  - intros v p. simpl. unfold rising, falling. rewrite debounce_cases.
    destruct p; simpl;
      destruct (Z.leb_spec v (TH_OFF th_on));
      destruct (Z.leb_spec th_on v); simpl;
      repeat split; intros; try tauto; try lia; try discriminate;
      intuition (try lia; try discriminate).
  - intros p0 readings i j Hij Hi Hj.
    exact (falling_between_risings th_on readings p0 i j Hij Hi Hj).
Qed.

Lemma debounce_hysteresis_witness :
  (debounce MOTION_TH 100 false = true
   /\ debounce MOTION_TH 67 true = false
   /\ debounce MOTION_TH 80 true = true)
  /\ exists k, (0 < k < 2)%nat
               /\ falling_at MOTION_TH false [100; 50; 100] k = true.
Proof.
  split.
  - destruct (proj1 (debounce_hysteresis MOTION_TH) 100 false)
      as (Hup & _).
    destruct (proj1 (debounce_hysteresis MOTION_TH) 67 true)
      as (_ & Hdown & _).
    destruct (proj1 (debounce_hysteresis MOTION_TH) 80 true)
      as (_ & _ & Hhold & _).
    split; [ apply Hup; split; [ reflexivity | unfold MOTION_TH; lia ] |].
    split; [ apply Hdown; split; [ reflexivity | vm_compute; discriminate ] |].
    apply Hhold; vm_compute; intros [H1 H2]; [ discriminate H1 | apply H2; reflexivity ].
  - apply (proj2 (debounce_hysteresis MOTION_TH) false [100; 50; 100]
                  0%nat 2%nat);
      [ lia | reflexivity | reflexivity ].
Defined.

(** ** Frame buffer and indexed painter *)

Lemma foldl_insert_length (c : CRGB) (ks : list nat) :
  forall b : list CRGB,
  length (foldl (fun b i => <[i := c]> b) b ks) = length b.
Proof.
  induction ks as [| k ks IH]; intros b; simpl; [reflexivity |].
  rewrite IH. apply length_insert.
Qed.

Lemma foldl_insert_lookup (c : CRGB) (ks : list nat) :
  forall (b : list CRGB) (i : nat), (i < length b)%nat ->
  foldl (fun b i => <[i := c]> b) b ks !! i
  = if decide (i ∈ ks) then Some c else b !! i.
Proof.
  induction ks as [| k ks IH]; intros b i Hi; simpl.
  - reflexivity.
  - rewrite IH by (rewrite length_insert; exact Hi).
    destruct (decide (i ∈ ks)) as [Hin | Hnin].
    + rewrite decide_True by (right; exact Hin). reflexivity.
    + destruct (decide (k = i)) as [-> | Hne].
      * rewrite decide_True by left. apply list_lookup_insert_eq. exact Hi.
      * rewrite decide_False.
        -- apply list_lookup_insert_ne. exact Hne.
        -- intros Hin. apply elem_of_cons in Hin as [-> | Hin]; tauto.
Qed.

Lemma fill_solid_replicate (px : list CRGB) (n : nat) (c : CRGB) :
  length px = n -> fill_solid px n c = replicate n c.
Proof.
  intros Hlen. unfold fill_solid. apply list_eq. intros i.
  destruct (decide (i < n)%nat) as [Hi | Hi].
  - rewrite foldl_insert_lookup by lia.
    rewrite decide_True by (apply elem_of_seq; lia).
    symmetry. apply lookup_replicate_2. exact Hi.
  - rewrite !lookup_ge_None_2; [reflexivity | |].
    + rewrite length_replicate. lia.
    + rewrite foldl_insert_length. lia.
Qed.

Lemma paint_length c (b : list CRGB) k : length (fx.paint c b k) = length b.
Proof. unfold fx.paint. case_match; [apply length_insert | reflexivity]. Qed.

Lemma colorList_length idx c :
  forall b : list CRGB, length (fx.colorList idx c b) = length b.
Proof.
  unfold fx.colorList.
  induction idx as [| k idx IH]; intros b; simpl; [reflexivity |].
  rewrite IH. apply paint_length.
Qed.

Lemma paint_lookup c (b : list CRGB) k (i : nat) :
  (i < length b)%nat -> (i < NUM_LEDS_PER_FACE)%nat ->
  fx.paint c b k !! i = if decide (k = N.of_nat i) then Some c else b !! i.
Proof.
  intros Hb Hi. unfold fx.paint.
  destruct (N.ltb_spec k (N.of_nat NUM_LEDS_PER_FACE)) as [Hk | Hk].
  - destruct (decide (k = N.of_nat i)) as [-> | Hne].
    + rewrite Nat2N.id. apply list_lookup_insert_eq. exact Hb.
    + apply list_lookup_insert_ne. intros <-. apply Hne.
      symmetry. apply N2Nat.id.
  - rewrite decide_False; [reflexivity |]. intros ->. lia.
Qed.

(** What [colorList] leaves at a position of the buffer. *)
Lemma colorList_lookup idx c :
  forall (b : list CRGB) (i : nat),
  (i < length b)%nat -> (i < NUM_LEDS_PER_FACE)%nat ->
  fx.colorList idx c b !! i
  = if decide (N.of_nat i ∈ idx) then Some c else b !! i.
Proof.
  unfold fx.colorList.
  induction idx as [| k idx IH]; intros b i Hb Hi; simpl.
  - reflexivity.
  - rewrite IH by (rewrite ?paint_length; assumption).
    destruct (decide (N.of_nat i ∈ idx)) as [Hin | Hnin].
    + rewrite decide_True by (right; exact Hin). reflexivity.
    + rewrite paint_lookup by assumption.
      destruct (decide (k = N.of_nat i)) as [-> | Hne].
      * rewrite decide_True by left. reflexivity.
      * rewrite decide_False; [reflexivity |].
        intros Hin. apply elem_of_cons in Hin as [Heq | Hin];
          [ apply Hne; symmetry; exact Heq | tauto ].
Qed.

Lemma paint_pairs_length pairs :
  forall b, length (paint_pairs pairs b) = length b.
Proof.
  unfold paint_pairs.
  induction pairs as [| p pairs IH]; intros b; simpl; [reflexivity |].
  rewrite IH. apply colorList_length.
Qed.

Lemma paint_pairs_untouched pairs (i : nat) :
  forall b, (i < length b)%nat -> (i < NUM_LEDS_PER_FACE)%nat ->
  (forall p, p ∈ pairs -> N.of_nat i ∉ fst p) ->
  paint_pairs pairs b !! i = b !! i.
Proof.
  unfold paint_pairs.
  induction pairs as [| p pairs IH]; intros b Hb Hi Hno; simpl.
  - reflexivity.
  - rewrite IH.
    + rewrite colorList_lookup by assumption.
      rewrite decide_False; [reflexivity |]. apply Hno. left.
    + rewrite colorList_length. exact Hb.
    + exact Hi.
    + intros q Hq. apply Hno. right. exact Hq.
Qed.

Lemma paint_pairs_last pairs1 idx c pairs2 (i : nat) b :
  (i < length b)%nat -> (i < NUM_LEDS_PER_FACE)%nat ->
  N.of_nat i ∈ idx ->
  (forall p, p ∈ pairs2 -> N.of_nat i ∉ fst p) ->
  paint_pairs (pairs1 ++ (idx, c) :: pairs2) b !! i = Some c.
Proof.
  intros Hb Hi Hin Hno. unfold paint_pairs. rewrite foldl_app. simpl.
  fold (paint_pairs pairs1 b).
  fold (paint_pairs pairs2 (fx.colorList idx c (paint_pairs pairs1 b))).
  rewrite paint_pairs_untouched; try assumption.
  - rewrite colorList_lookup; try assumption.
    + rewrite decide_True by exact Hin. reflexivity.
    + rewrite paint_pairs_length. exact Hb.
  - rewrite colorList_length, paint_pairs_length. exact Hb.
Qed.

(** C6. A frame render clears the 256 pixels to black and then paints the
    pairs in the given order: a listed index below 256 takes the pair's
    colour, an index of 256 or more is skipped and the buffer keeps its
    length. After the render a position listed in no set is black, and a
    position listed in several sets holds the colour of the last pair that
    lists it. [drawFrame] is the render of its three pairs. *)
Theorem renderFrame_overwrite_last_wins
    (pairs : list (list N * CRGB)) (px : list CRGB) (i : nat)
    (Hlen : length px = NUM_LEDS_PER_FACE)
    (Hi : (i < NUM_LEDS_PER_FACE)%nat) :
  (forall A cA B cB C cC,
      fx.drawFrame A cA B cB C cC px
      = renderFrame [(A, cA); (B, cB); (C, cC)] px)
  /\ fill_solid px NUM_LEDS_PER_FACE Black
     = replicate NUM_LEDS_PER_FACE Black
  /\ (forall idx c (b : list CRGB), length b = NUM_LEDS_PER_FACE ->
        fx.colorList idx c b !! i
        = if decide (N.of_nat i ∈ idx) then Some c else b !! i)
  /\ (forall c (b : list CRGB) k,
        (N.of_nat NUM_LEDS_PER_FACE <= k)%N -> fx.paint c b k = b)
  /\ length (renderFrame pairs px) = NUM_LEDS_PER_FACE
  /\ ((forall p, p ∈ pairs -> N.of_nat i ∉ fst p) ->
      renderFrame pairs px !! i = Some Black)
  /\ (forall before idx c after,
        pairs = before ++ (idx, c) :: after ->
        N.of_nat i ∈ idx ->
        (forall p, p ∈ after -> N.of_nat i ∉ fst p) ->
        renderFrame pairs px !! i = Some c).
Proof.
  assert (length (replicate NUM_LEDS_PER_FACE Black) = NUM_LEDS_PER_FACE)
    as Hrep by apply length_replicate.
  split; [ reflexivity |].
  split; [ apply fill_solid_replicate; exact Hlen |].
  split; [ intros idx c b Hb; apply colorList_lookup; lia |].
  split.
  { intros c b k Hk. unfold fx.paint.
    destruct (N.ltb_spec k (N.of_nat NUM_LEDS_PER_FACE)); [lia | reflexivity]. }
  unfold renderFrame. rewrite fill_solid_replicate by exact Hlen.
  split; [ rewrite paint_pairs_length; exact Hrep |].
  split.
  - intros Hno.
    rewrite paint_pairs_untouched by (rewrite ?Hrep; assumption).
    apply lookup_replicate_2. exact Hi.
  - intros before idx c after -> Hin Hno.
    apply paint_pairs_last; assumption.
Qed.

(** Position 2 is listed by the first two of three pairs and holds the
    colour of the second; the previous content of the buffer is gone. *)
Lemma renderFrame_overwrite_last_wins_witness :
  renderFrame [([1; 2; 3]%N, Red); ([2; 3]%N, Blue); ([3; 300]%N, White)]
              (replicate NUM_LEDS_PER_FACE Orange) !! 2%nat
  = Some Blue.
Proof.
  refine (proj2 (proj2 (proj2 (proj2 (proj2 (proj2
    (renderFrame_overwrite_last_wins
       [([1; 2; 3]%N, Red); ([2; 3]%N, Blue); ([3; 300]%N, White)]
       (replicate NUM_LEDS_PER_FACE Orange) 2 _ _))))))
    [([1; 2; 3]%N, Red)] [2; 3]%N Blue [([3; 300]%N, White)] _ _ _).
  - reflexivity.
  - unfold NUM_LEDS_PER_FACE. lia.
  - reflexivity.
  - simpl. left.
  - intros p Hp. apply list_elem_of_singleton in Hp as ->. simpl.
    intros Hin. apply elem_of_cons in Hin as [Heq | Hin]; [discriminate |].
    apply list_elem_of_singleton in Hin. discriminate.
Defined.

(** ** The blocks of [loop()] *)

Arguments fx.drawFrame : simpl never.
Arguments due : simpl never.

Lemma shown_faces_app e1 e2 :
  shown_faces (e1 ++ e2) = shown_faces e1 ++ shown_faces e2.
Proof. apply omap_app. Qed.

Lemma blink_frames_app e1 e2 :
  blink_frames (e1 ++ e2) = blink_frames e1 ++ blink_frames e2.
Proof. apply omap_app. Qed.

Lemma body_frames_app e1 e2 :
  body_frames (e1 ++ e2) = body_frames e1 ++ body_frames e2.
Proof. apply omap_app. Qed.

Lemma ltb_zero_not_due now deadline :
  (to_int32 (wrap32 (now - deadline)) <? 0) = negb (due now deadline).
Proof. unfold due. apply Z.ltb_antisym. Qed.

Lemma renderBodyAllFaces_faces idx colors px :
  shown_faces (snd (renderBodyAllFaces idx colors px))
  = [RIGHT; LEFT; BACK; FRONT]
  /\ blink_frames (snd (renderBodyAllFaces idx colors px)) = []
  /\ body_frames (snd (renderBodyAllFaces idx colors px)) = [].
Proof. repeat split. Qed.

Lemma renderBlinkFrameAllFaces_faces useAlt px :
  shown_faces (snd (renderBlinkFrameAllFaces useAlt px))
  = [FRONT; RIGHT; LEFT; BACK]
  /\ blink_frames (snd (renderBlinkFrameAllFaces useAlt px)) = []
  /\ body_frames (snd (renderBlinkFrameAllFaces useAlt px)) = [].
Proof. repeat split. Qed.

(** The blink block alone: its effect on [blink], the frames it marks, and
    what it leaves untouched; it returns from [loop()] exactly when the
    blink is still active after it. *)
Lemma blinkBlock_spec now g :
  let r := blinkBlock now g in
  blink (fst (fst r)) = fst (alert_tick now (blink g))
  /\ blink_frames (snd (fst r)) = snd (alert_tick now (blink g))
  /\ body_frames (snd (fst r)) = []
  /\ shown_faces (snd (fst r))
     = flat_map (fun _ => [FRONT; RIGHT; LEFT; BACK])
                (blink_frames (snd (fst r)))
  /\ presence (fst (fst r)) = presence g
  /\ snd r = Blink.active (blink (fst (fst r))).
Proof.
  unfold blinkBlock, blinkFrame, alert_tick.
  destruct g as [px cols rot bd [act st nx stop] pres ls]. simpl.
  destruct act; [| repeat split].
  destruct (due now nx); simpl; rewrite ltb_zero_not_due;
    destruct (due now stop); simpl; repeat split.
Qed.

Lemma idleRotation_spec now g :
  blink (idleRotation now g) = blink g
  /\ presence (idleRotation now g) = presence g
  /\ body (idleRotation now g) = body g
  /\ lastStep (idleRotation now g) = lastStep g.
Proof. unfold idleRotation. case_match; repeat split. Qed.

Lemma bodyBlock_spec now g :
  let r := bodyBlock now g in
  blink (fst r) = blink g
  /\ presence (fst r) = presence g
  /\ blink_frames (snd r) = []
  /\ shown_faces (snd r)
     = flat_map (fun _ => [RIGHT; LEFT; BACK; FRONT]) (body_frames (snd r)).
Proof.
  unfold bodyBlock. simpl. case_match; [| repeat split].
  destruct (bodyStep (body g) (lastStep g)) as [b ls]. repeat split.
Qed.

(** [loop()] behind its detection block: [g] already holds the new level and,
    on a rising edge, the restarted blink. *)
Lemma loop_unfold now v g :
  loop now v g
  = let g1 := set_presence (debounce MOTION_TH v (presence g)) g in
    let g2 := if rising (presence g) (debounce MOTION_TH v (presence g))
              then startBlink now g1 else g1 in
    let r := blinkBlock now g2 in
    if snd r then fst r
    else
      let r' := bodyBlock now (idleRotation now (fst (fst r))) in
      (fst r', snd (fst r) ++ snd r').
Proof.
  unfold loop. simpl.
  destruct (blinkBlock now _) as [[g' evs] ret]. simpl.
  destruct ret; [reflexivity |].
  destruct (bodyBlock now _) as [g'' evs']. reflexivity.
Qed.

Lemma loop_presence now v g :
  presence (fst (loop now v g)) = debounce MOTION_TH v (presence g).
Proof.
  rewrite loop_unfold. cbv zeta.
  set (g2 := if rising _ _ then _ else _).
  assert (presence g2 = debounce MOTION_TH v (presence g)) as Hg2.
  { unfold g2. case_match; reflexivity. }
  destruct (blinkBlock_spec now g2) as (_ & _ & _ & _ & Hp & _).
  destruct (snd (blinkBlock now g2)).
  - rewrite Hp. exact Hg2.
  - simpl.
    destruct (bodyBlock_spec now (idleRotation now (fst (fst (blinkBlock now g2)))))
      as (_ & Hp' & _).
    rewrite Hp'.
    destruct (idleRotation_spec now (fst (fst (blinkBlock now g2))))
      as (_ & Hp'' & _).
    rewrite Hp'', Hp. exact Hg2.
Qed.

(** What an iteration does to the alert once the detection block has left
    the blink state [b] in the globals. *)
Lemma loop_blink now v g :
  let b := if rising (presence g) (debounce MOTION_TH v (presence g))
           then Blink.mk true 0 now (wrap32 (now + BLINK_DURATION_MS))
           else blink g in
  blink (fst (loop now v g)) = fst (alert_tick now b)
  /\ blink_frames (snd (loop now v g)) = snd (alert_tick now b).
Proof.
  rewrite loop_unfold. cbv zeta.
  set (g2 := if rising _ _ then startBlink _ _ else _).
  set (b := if rising _ _ then Blink.mk _ _ _ _ else _).
  assert (blink g2 = b) as Hb.
  { unfold g2, b. case_match; reflexivity. }
  destruct (blinkBlock_spec now g2) as (Hbl & Hfr & _ & _ & _ & _).
  rewrite Hb in Hbl, Hfr.
  destruct (snd (blinkBlock now g2)); [split; assumption |].
  simpl.
  destruct (bodyBlock_spec now (idleRotation now (fst (fst (blinkBlock now g2)))))
    as (Hbl' & _ & Hfr' & _).
  destruct (idleRotation_spec now (fst (fst (blinkBlock now g2))))
    as (Hbl'' & _).
  rewrite Hbl', Hbl'', blink_frames_app, Hfr', app_nil_r. split; assumption.
Qed.

Lemma loop_quiet_tick now v g :
  rising (presence g) (debounce MOTION_TH v (presence g)) = false ->
  blink (fst (loop now v g)) = fst (alert_tick now (blink g))
  /\ blink_frames (snd (loop now v g)) = snd (alert_tick now (blink g)).
Proof. intros Hq. pose proof (loop_blink now v g) as H. rewrite Hq in H. exact H. Qed.

Lemma wrap32_sub_wrap_r a b : wrap32 (a - wrap32 b) = wrap32 (a - b).
Proof. unfold wrap32. apply Zminus_mod_idemp_r. Qed.

Lemma due_now now : due now now = true.
Proof. unfold due. rewrite Z.sub_diag. reflexivity. Qed.

Lemma not_due_before_stop now :
  due now (wrap32 (now + BLINK_DURATION_MS)) = false.
Proof.
  unfold due. rewrite wrap32_sub_wrap_r.
  replace (now - (now + BLINK_DURATION_MS)) with (- BLINK_DURATION_MS) by lia.
  reflexivity.
Qed.

Lemma loop_rising_tick now v g :
  rising (presence g) (debounce MOTION_TH v (presence g)) = true ->
  blink (fst (loop now v g))
  = Blink.mk true 1 (wrap32 (now + BLINK_PERIOD_MS))
             (wrap32 (now + BLINK_DURATION_MS))
  /\ blink_frames (snd (loop now v g)) = [(0, false)].
Proof.
  intros Hr. pose proof (loop_blink now v g) as H. rewrite Hr in H.
  unfold alert_tick in H. simpl in H.
  rewrite due_now, not_due_before_stop in H. exact H.
Qed.

Lemma loop_faces now v g :
  shown_faces (snd (loop now v g))
  = flat_map (fun _ => [FRONT; RIGHT; LEFT; BACK])
             (blink_frames (snd (loop now v g)))
    ++ flat_map (fun _ => [RIGHT; LEFT; BACK; FRONT])
                (body_frames (snd (loop now v g))).
Proof.
  rewrite loop_unfold. cbv zeta.
  set (g2 := if rising _ _ then startBlink _ _ else _).
  destruct (blinkBlock_spec now g2) as (_ & _ & Hbd & Hsh & _ & _).
  destruct (snd (blinkBlock now g2)).
  - rewrite Hsh, Hbd. simpl. rewrite app_nil_r. reflexivity.
  - simpl.
    destruct (bodyBlock_spec now (idleRotation now (fst (fst (blinkBlock now g2)))))
      as (_ & _ & Hfr' & Hsh').
    rewrite shown_faces_app, blink_frames_app, body_frames_app.
    rewrite Hsh, Hsh', Hbd, Hfr', app_nil_r. reflexivity.
Qed.

(** ** Publication order *)

(** C4 (as the code has it). Every alert frame is published to the faces in
    the order FRONT, RIGHT, LEFT, BACK and every body frame in the order
    RIGHT, LEFT, BACK, FRONT; an iteration of [loop()] publishes nothing
    else: one such group per alert frame it renders, then one per body
    frame. *)
Theorem publication_order (now v : Z) (g : Globals) (useAlt : bool)
    (idx : Z) (colors px : list CRGB) :
  shown_faces (snd (renderBlinkFrameAllFaces useAlt px))
  = [FRONT; RIGHT; LEFT; BACK]
  /\ shown_faces (snd (renderBodyAllFaces idx colors px))
     = [RIGHT; LEFT; BACK; FRONT]
  /\ shown_faces (snd (loop now v g))
     = flat_map (fun _ => [FRONT; RIGHT; LEFT; BACK])
                (blink_frames (snd (loop now v g)))
       ++ flat_map (fun _ => [RIGHT; LEFT; BACK; FRONT])
                   (body_frames (snd (loop now v g))).
Proof.
  split; [ apply renderBlinkFrameAllFaces_faces |].
  split; [ apply renderBodyAllFaces_faces |].
  apply loop_faces.
Qed.

(** C4 as stated fails: the alert frame goes to LEFT before BACK, on the
    render alone and on the iteration of [loop()] that starts an alert. *)
Lemma alert_publication_order_differs :
  shown_faces (snd (renderBlinkFrameAllFaces false (leds initial)))
    <> [FRONT; RIGHT; BACK; LEFT]
  /\ shown_faces (snd (loop 0 MOTION_TH (setup 0 initial)))
     = [FRONT; RIGHT; LEFT; BACK].
Proof. split; [ vm_compute; congruence | vm_compute; reflexivity ]. Qed.

(** ** Body schedule *)

(** C9. From pair-selector 0, step 0 and no repetition done, the
    pair-selector is still 0 after each of the first nine due ticks and is
    1 after the tenth, which completes the fifth round trip of the step
    (0, 1, 0) and resets the repetition count; in the sketch started at
    t = 0 and ticked every millisecond with no motion, the body period of
    100 ms puts that tenth due tick at t = 1000. *)
Theorem body_pair_flips_on_tenth_tick (lastStep0 nextAt0 : Z) :
  let b0 := Body.mk 0 0 0 nextAt0 in
  let after := fun n => fst (body_ticks n b0 lastStep0) in
  BODY_REPS_PER_PAIR = 5 /\ BODY_PERIOD_MS = 100
  /\ map (fun n => Body.pair (after n)) (seq 0 11)
     = [0; 0; 0; 0; 0; 0; 0; 0; 0; 0; 1]
  /\ map (fun n => Body.stepInPair (after n)) (seq 0 11)
     = [0; 1; 0; 1; 0; 1; 0; 1; 0; 1; 0]
  /\ map (fun n => Body.repsInPair (after n)) (seq 0 11)
     = [0; 0; 1; 1; 2; 2; 3; 3; 4; 4; 0]
  /\ (let r := run (every_ms 1 (replicate 1000 0)) (setup 0 initial) in
      body (setup 0 initial) = Body.mk 0 0 0 100
      /\ map (fun x => Body.pair (body (fst x))) r
         = replicate 999 0 ++ [1]
      /\ map (fun x => body_frames (snd x)) r
         = map (fun t => if t mod 100 =? 0
                         then [if t =? 1000 then 2 else (t / 100) mod 2]
                         else [])
               (clock 1 1000)).
Proof.
  cbv zeta. split; [reflexivity |]. split; [reflexivity |].
  split; [reflexivity |]. split; [reflexivity |]. split; [reflexivity |].
  split; [reflexivity |]. split; vm_compute; reflexivity.
Qed.

(** ** The alert timeline *)

Lemma no_rising_cons th_on p v rs :
  no_rising th_on p (v :: rs) = true ->
  rising p (debounce th_on v p) = false
  /\ no_rising th_on (debounce th_on v p) rs = true.
Proof.
  unfold no_rising. simpl. intros H. apply andb_true_iff in H as [H1 H2].
  split; [ apply negb_true_iff; exact H1 | exact H2 ].
Qed.

Lemma every_ms_readings rs : forall t0, map snd (every_ms t0 rs) = rs.
Proof. induction rs as [| v rs IH]; intros t0; simpl; [| rewrite IH]; reflexivity. Qed.

Lemma every_ms_clock rs :
  forall t0, map fst (every_ms t0 rs) = clock t0 (length rs).
Proof. induction rs as [| v rs IH]; intros t0; simpl; [| rewrite IH]; reflexivity. Qed.

(** Without rising edges a run of [loop()] follows the alert timeline. *)
Lemma run_quiet ticks :
  forall g, no_rising MOTION_TH (presence g) (map snd ticks) = true ->
  map (fun x => (blink (fst x), blink_frames (snd x))) (run ticks g)
  = alert_run (map fst ticks) (blink g).
Proof.
  induction ticks as [| [now v] ticks IH]; intros g Hq; simpl.
  - reflexivity.
  - simpl in Hq. apply no_rising_cons in Hq as [Hq Hrest].
    destruct (loop_quiet_tick now v g Hq) as [Hb Hf].
    rewrite IH by (rewrite loop_presence; exact Hrest).
    rewrite Hb, Hf, <- surjective_pairing. reflexivity.
Qed.




(** C3 (as the code has it). An alert activated at t = 0 by a rising edge,
    with the loop ticked every millisecond and no further rising edge,
    renders on the iterations t = 0 .. 2999 exactly 30 alert frames, one
    every 100 ms; the k-th of them (k = 0 .. 29) reads the step counter
    k mod 18 (0 .. 17, then 0 .. 11) and alternates with the parity of k.
    The alert is active after each of these iterations and inactive after
    the iteration at t = 3000, whatever the reading there. *)
Theorem alert_scenario (g : Globals) (v0 : Z) (readings : list Z)
    (Hidle : presence g = false) (Hv0 : MOTION_TH <= v0)
    (Hlen : length readings = 3000%nat)
    (Hquiet : no_rising MOTION_TH true readings = true) :
  let r := run (every_ms 0 (v0 :: readings)) g in
  let frames := map (fun x => blink_frames (snd x)) (take 3000 r) in
  frames
  = map (fun t => if t mod BLINK_PERIOD_MS =? 0
                  then [((t / BLINK_PERIOD_MS) mod BLINK_STEPS_TOTAL,
                         Z.odd (t / BLINK_PERIOD_MS))]
                  else [])
        (clock 0 3000)
  /\ length (concat frames) = 30%nat
  /\ map (fun x => Blink.active (blink (fst x))) r
     = replicate 3000 true ++ [false].
Proof.
  assert (rising (presence g) (debounce MOTION_TH v0 (presence g)) = true)
    as Hedge.
  { rewrite Hidle, debounce_cases. unfold rising. simpl.
    apply Z.leb_le. exact Hv0. }
  assert (debounce MOTION_TH v0 (presence g) = true) as Hlevel.
  { unfold rising in Hedge. apply andb_true_iff in Hedge. tauto. }
  destruct (loop_rising_tick 0 v0 g Hedge) as [Hb0 Hf0].
  pose proof (run_quiet (every_ms 1 readings) (fst (loop 0 v0 g))) as Hsim.
  rewrite every_ms_readings, every_ms_clock, loop_presence, Hlevel, Hlen, Hb0
    in Hsim.
  specialize (Hsim Hquiet).
  set (rest := run (every_ms 1 readings) (fst (loop 0 v0 g))) in *.
  assert (map (fun x => blink_frames (snd x)) rest
          = map snd (alert_run (clock 1 3000)
              (Blink.mk true 1 (wrap32 (0 + BLINK_PERIOD_MS))
                        (wrap32 (0 + BLINK_DURATION_MS))))) as Hframes.
  { rewrite <- Hsim, map_map. reflexivity. }
  assert (map (fun x => Blink.active (blink (fst x))) rest
          = map (fun y => Blink.active (fst y)) (alert_run (clock 1 3000)
              (Blink.mk true 1 (wrap32 (0 + BLINK_PERIOD_MS))
                        (wrap32 (0 + BLINK_DURATION_MS))))) as Hactive.
  { rewrite <- Hsim, map_map. reflexivity. }
  cbv zeta.
  change (run (every_ms 0 (v0 :: readings)) g) with (loop 0 v0 g :: rest).
  change (take 3000 (loop 0 v0 g :: rest))
    with (loop 0 v0 g :: take 2999 rest).
  rewrite !map_cons, <- firstn_map.
  rewrite Hframes, Hactive, Hf0, Hb0.
  split; [ vm_compute; reflexivity |].
  split; vm_compute; reflexivity.
Qed.

(** The sketch just set up, a reading at the threshold at t = 0 and the
    sensor at its highest reading from then on, also at t = 3000. *)
Lemma alert_scenario_witness :
  let r := run (every_ms 0 (100 :: replicate 3000 1023)) (setup 0 initial) in
  length (concat (map (fun x => blink_frames (snd x)) (take 3000 r)))
  = 30%nat
  /\ map (fun x => Blink.active (blink (fst x))) r
     = replicate 3000 true ++ [false].
Proof.
  refine (proj2 (alert_scenario (setup 0 initial) 100 (replicate 3000 1023)
                                _ _ _ _)).
  - reflexivity.
  - unfold MOTION_TH. lia.
  - vm_compute. reflexivity.
  - vm_compute. reflexivity.
Defined.

(** C3 as stated fails: the step counter wraps at 18, so the steps of the
    30 frames rendered before t = 3000 are not 0 .. 29 (the nineteenth
    frame reads step 0); and counted through the iteration at t = 3000 the
    alert has rendered 31 frames. *)
Lemma alert_steps_wrap_at_18 :
  let r := run (every_ms 0 (100 :: replicate 3000 0)) (setup 0 initial) in
  let frames := fun l => concat (map (fun x => blink_frames (snd x)) l) in
  map fst (frames (take 3000 r)) <> map Z.of_nat (seq 0 30)
  /\ map fst (frames (take 3000 r)) !! 18%nat = Some 0
  /\ map fst (frames r) <> map Z.of_nat (seq 0 30)
  /\ length (frames r) = 31%nat.
Proof. vm_compute. repeat split; congruence. Qed.

(** * Further properties of the sketch *)

(** ** Painter *)

Lemma drawFrame_fresh A cA B cB C cC (px : list CRGB) :
  length px = NUM_LEDS_PER_FACE ->
  fx.drawFrame A cA B cB C cC px
  = fx.drawFrame A cA B cB C cC (replicate NUM_LEDS_PER_FACE Black).
Proof.
  intros Hlen. unfold fx.drawFrame.
  rewrite !fill_solid_replicate by (rewrite ?length_replicate; auto).
  reflexivity.
Qed.

Lemma drawFrame_length A cA B cB C cC (px : list CRGB) :
  length (fx.drawFrame A cA B cB C cC px) = length px.
Proof.
  unfold fx.drawFrame, fill_solid.
  rewrite !colorList_length. apply foldl_insert_length.
Qed.

(** X1. Every pixel of a drawn frame is black or one of the three colours
    passed to [drawFrame]: nothing of the previous frame and no other
    colour can show. *)
Theorem drawFrame_palette A cA B cB C cC (px : list CRGB) (i : nat)
    (c : CRGB) (Hlen : length px = NUM_LEDS_PER_FACE)
    (Hc : fx.drawFrame A cA B cB C cC px !! i = Some c) :
  c = Black \/ c = cA \/ c = cB \/ c = cC.
Proof.
  assert (i < NUM_LEDS_PER_FACE)%nat as Hi.
  { apply lookup_lt_Some in Hc. rewrite drawFrame_length in Hc. lia. }
  unfold fx.drawFrame in Hc.
  rewrite fill_solid_replicate in Hc by exact Hlen.
  rewrite !colorList_lookup in Hc
    by (rewrite ?colorList_length, ?length_replicate; exact Hi).
  rewrite lookup_replicate_2 in Hc by exact Hi.
  repeat case_decide; inversion Hc; auto.
Qed.

(** From here on a frame is compared by the lemmas above or evaluated as a
    whole, never unfolded step by step. *)
Opaque fx.drawFrame.

Lemma drawFrame_palette_witness :
  Magenta = Black \/ Magenta = Magenta \/ Magenta = White \/ Magenta = Blue.
Proof.
  apply (drawFrame_palette body_1 Magenta eye_white_1 White eyes_1 Blue
           (replicate NUM_LEDS_PER_FACE Orange) 15 Magenta);
    [ reflexivity | vm_compute; reflexivity ].
Defined.

(** X2. A frame does not depend on what the shared buffer held before:
    drawn over any two 256-pixel buffers the result is the same, so drawing
    the same frame again changes nothing. *)
Theorem drawFrame_no_leftovers A cA B cB C cC (px px' : list CRGB)
    (Hpx : length px = NUM_LEDS_PER_FACE)
    (Hpx' : length px' = NUM_LEDS_PER_FACE) :
  fx.drawFrame A cA B cB C cC px = fx.drawFrame A cA B cB C cC px'
  /\ fx.drawFrame A cA B cB C cC (fx.drawFrame A cA B cB C cC px)
     = fx.drawFrame A cA B cB C cC px.
Proof.
  split.
  - rewrite (drawFrame_fresh _ _ _ _ _ _ px Hpx).
    rewrite (drawFrame_fresh _ _ _ _ _ _ px' Hpx'). reflexivity.
  - rewrite (drawFrame_fresh _ _ _ _ _ _ (fx.drawFrame A cA B cB C cC px))
      by (rewrite drawFrame_length; exact Hpx).
    rewrite (drawFrame_fresh _ _ _ _ _ _ px Hpx). reflexivity.
Qed.

Lemma drawFrame_no_leftovers_witness :
  fx.drawFrame body_1 Red eye_white_1 White eyes_1 Blue
               (replicate NUM_LEDS_PER_FACE Orange)
  = fx.drawFrame body_1 Red eye_white_1 White eyes_1 Blue
                 (replicate NUM_LEDS_PER_FACE Cyan).
Proof.
  apply (drawFrame_no_leftovers body_1 Red eye_white_1 White eyes_1 Blue
           (replicate NUM_LEDS_PER_FACE Orange)
           (replicate NUM_LEDS_PER_FACE Cyan));
    reflexivity.
Defined.

(** ** The helper [colorRange] of the blocking sketch *)

Lemma colorRange_loop_length fuel :
  forall i b c (px : list CRGB),
  length (colorRange_loop fuel i b c px) = length px.
Proof.
  induction fuel as [| fuel IH]; intros i b c px; simpl; [reflexivity |].
  case_match; [| reflexivity]. rewrite IH. apply length_insert.
Qed.

Lemma colorRange_loop_lookup fuel :
  forall (i b : N) c (px : list CRGB) (j : nat),
  (NUM_LEDS_PER_FACE < N.to_nat i + fuel)%nat ->
  (j < length px)%nat -> (j < NUM_LEDS_PER_FACE)%nat ->
  colorRange_loop fuel i b c px !! j
  = if decide (i <= N.of_nat j <= b)%N then Some c else px !! j.
Proof.
  induction fuel as [| fuel IH]; intros i b c px j Hfuel Hj Hj';
    cbn [colorRange_loop]; unfold NUM_LEDS_PER_FACE in Hfuel, Hj'.
  - rewrite decide_False by lia. reflexivity.
  - destruct (N.leb_spec i b) as [Hib | Hib];
      destruct (N.ltb_spec i (N.of_nat NUM_LEDS_PER_FACE)) as [Hi | Hi];
      unfold NUM_LEDS_PER_FACE in Hi; cbn [andb];
      try (rewrite decide_False by lia; reflexivity).
    assert ((i + 1) mod 2 ^ 16 = i + 1)%N as ->.
    { apply N.mod_small. change (2 ^ 16)%N with 65536%N. lia. }
    rewrite IH
      by (rewrite ?length_insert; unfold NUM_LEDS_PER_FACE; lia).
    destruct (decide (N.of_nat j = i)) as [Heq | Hne].
    + subst i. rewrite Nat2N.id, list_lookup_insert_eq by exact Hj.
      repeat case_decide; try reflexivity; lia.
    + rewrite list_lookup_insert_ne by lia.
      repeat case_decide; try reflexivity; lia.
Qed.

(** X3. [colorRange(a, b, c)] paints exactly the positions between the
    smaller and the larger bound that lie inside the buffer, whichever
    order the bounds come in and however far the upper one lies beyond
    the buffer; the other pixels and the size of the buffer are kept, and
    more fuel for its loop changes nothing. *)
Theorem colorRange_paints_interval (a b : N) (c : CRGB) (px : list CRGB)
    (j : nat) (Hlen : length px = NUM_LEDS_PER_FACE)
    (Hj : (j < NUM_LEDS_PER_FACE)%nat) :
  colorRange a b c px !! j
  = (if decide (N.min a b <= N.of_nat j <= N.max a b)%N
     then Some c else px !! j)
  /\ length (colorRange a b c px) = NUM_LEDS_PER_FACE
  /\ colorRange b a c px = colorRange a b c px
  /\ (forall more : nat,
        colorRange_loop (S NUM_LEDS_PER_FACE + more) (N.min a b) (N.max a b)
                        c px !! j
        = colorRange a b c px !! j).
Proof.
  assert (forall x y, colorRange x y c px
            = colorRange_loop (S NUM_LEDS_PER_FACE) (N.min x y) (N.max x y)
                              c px) as Hnorm.
  { intros x y. unfold colorRange.
    destruct (N.ltb_spec y x).
    - rewrite N.min_r, N.max_l by lia. reflexivity.
    - rewrite N.min_l, N.max_r by lia. reflexivity. }
  split; [| split; [| split]].
  - rewrite Hnorm. apply colorRange_loop_lookup; lia.
  - rewrite Hnorm, colorRange_loop_length. exact Hlen.
  - rewrite !Hnorm, N.min_comm, N.max_comm. reflexivity.
  - intros more. rewrite Hnorm.
    rewrite !colorRange_loop_lookup by lia. reflexivity.
Qed.

Lemma colorRange_paints_interval_witness :
  colorRange 60000 250 Red (replicate NUM_LEDS_PER_FACE Black) !! 255%nat
  = Some Red.
Proof.
  refine (eq_trans (proj1 (colorRange_paints_interval 60000 250 Red
            (replicate NUM_LEDS_PER_FACE Black) 255 _ _)) _).
  - reflexivity.
  - unfold NUM_LEDS_PER_FACE. lia.
  - reflexivity.
Defined.

(** ** The blocking alert [ghostBlink()] *)

Lemma renderBlinkFrameAllFaces_fresh useAlt (px : list CRGB) :
  length px = NUM_LEDS_PER_FACE ->
  renderBlinkFrameAllFaces useAlt px
  = renderBlinkFrameAllFaces useAlt (replicate NUM_LEDS_PER_FACE Black).
Proof.
  intros Hlen.
  pose proof (drawFrame_fresh dead_fantom_1 Blue fantom_eyes_mouth Red dummy
                              Black px Hlen) as H1.
  pose proof (drawFrame_fresh dead_fantom_2 White fantom_eyes_mouth Red dummy
                              Black px Hlen) as H2.
  unfold renderBlinkFrameAllFaces. cbv zeta.
  destruct useAlt; cbn [negb]; [rewrite H2 | rewrite H1]; reflexivity.
Qed.

Lemma ghostBlink_body_fresh (px : list CRGB) :
  length px = NUM_LEDS_PER_FACE ->
  ghostBlink_body px = ghostBlink_body (replicate NUM_LEDS_PER_FACE Black).
Proof.
  intros Hlen.
  pose proof (drawFrame_fresh dead_fantom_1 Blue fantom_eyes_mouth Red dummy
                              Black px Hlen) as H1.
  unfold ghostBlink_body. cbv zeta. rewrite H1. reflexivity.
Qed.

Lemma ghostBlink_body_length (px : list CRGB) :
  length (fst (ghostBlink_body px)) = length px.
Proof. unfold ghostBlink_body. simpl. rewrite !drawFrame_length. reflexivity. Qed.

Lemma ghostBlink_loop_fresh n (px : list CRGB) :
  length px = NUM_LEDS_PER_FACE ->
  ghostBlink_loop (S n) px
  = ghostBlink_loop (S n) (replicate NUM_LEDS_PER_FACE Black).
Proof.
  intros Hlen. cbn [ghostBlink_loop].
  rewrite (ghostBlink_body_fresh px Hlen). reflexivity.
Qed.

(** X4. The blocking [ghostBlink()] plays the frames the non-blocking alert
    renders: 18 frames (BLINK_STEPS_TOTAL), the k-th being the render of
    [renderBlinkFrameAllFaces] for the parity of k, published on the same
    four faces in the same order, each followed by a pause of 100 ms
    (BLINK_PERIOD_MS); what the buffer held before does not matter. *)
Theorem ghostBlink_plays_alert_frames (px px0 : list CRGB)
    (Hpx : length px = NUM_LEDS_PER_FACE)
    (Hpx0 : length px0 = NUM_LEDS_PER_FACE) :
  snd (ghostBlink px)
  = flat_map (fun k => map Out (snd (renderBlinkFrameAllFaces (Z.odd k) px0))
                       ++ [Delay BLINK_PERIOD_MS])
             (clock 0 (Z.to_nat BLINK_STEPS_TOTAL))
  /\ fst (ghostBlink px) = fst (renderBlinkFrameAllFaces true px0).
Proof.
  unfold ghostBlink. rewrite (ghostBlink_loop_fresh 8 px Hpx).
  rewrite (flat_map_ext _
    (fun k => map Out (snd (renderBlinkFrameAllFaces (Z.odd k)
                              (replicate NUM_LEDS_PER_FACE Black)))
              ++ [Delay BLINK_PERIOD_MS]))
    by (intros k; rewrite (renderBlinkFrameAllFaces_fresh _ px0 Hpx0);
        reflexivity).
  rewrite (renderBlinkFrameAllFaces_fresh true px0 Hpx0).
  split; vm_compute; reflexivity.
Qed.

Lemma ghostBlink_plays_alert_frames_witness :
  fst (ghostBlink (leds initial))
  = fst (renderBlinkFrameAllFaces true (replicate NUM_LEDS_PER_FACE Red)).
Proof.
  apply (ghostBlink_plays_alert_frames (leds initial)
           (replicate NUM_LEDS_PER_FACE Red)); reflexivity.
Defined.

(** ** Colour rotation *)

Lemma four_colors (cs : list CRGB) :
  length cs = FACES -> exists a b c d, cs = [a; b; c; d].
Proof.
  intros Hlen.
  destruct cs as [| a [| b [| c [| d [| e cs]]]]]; try discriminate Hlen.
  exists a, b, c, d. reflexivity.
Qed.

Lemma rotateColors_length (cs : list CRGB) :
  length cs = FACES -> length (rotateColors cs) = FACES.
Proof. intros H. destruct (four_colors cs H) as (a & b & c & d & ->). reflexivity. Qed.

Lemma rotateColors_four_times (cs : list CRGB) :
  length cs = FACES -> Nat.iter 4 rotateColors cs = cs.
Proof. intros H. destruct (four_colors cs H) as (a & b & c & d & ->). reflexivity. Qed.

(** X5. On the four-colour assignment a rotation only moves colours: the
    result has the same four colours (it is a permutation of the
    assignment), and four rotations in a row give the assignment back. *)
Theorem rotateColors_cycle (cs : list CRGB) (Hlen : length cs = FACES) :
  length (rotateColors cs) = FACES
  /\ rotateColors cs ≡ₚ cs
  /\ Nat.iter 4 rotateColors cs = cs.
Proof.
  split; [ apply rotateColors_length; exact Hlen |].
  split; [| apply rotateColors_four_times; exact Hlen ].
  destruct (four_colors cs Hlen) as (a & b & c & d & ->).
  change (rotateColors [a; b; c; d]) with ([d] ++ [a; b; c]).
  change [a; b; c; d] with ([a; b; c] ++ [d]).
  apply Permutation_app_comm.
Qed.

Lemma rotateColors_cycle_witness :
  Nat.iter 4 rotateColors (bodyColors initial) = bodyColors initial.
Proof. apply (rotateColors_cycle (bodyColors initial)). reflexivity. Defined.

(** ** The latch under a steady reading *)

Lemma TH_OFF_lt th_on : 1 <= th_on -> TH_OFF th_on < th_on.
Proof. intros H. unfold TH_OFF, HYST. lia. Qed.

(** X6. With an on-threshold of at least 1 a steady reading cannot make the
    latch chatter: fed the same reading twice, the second sample leaves the
    level where the first put it. The thresholds must be apart for that:
    with the on-threshold 0 the off-threshold is 0 as well and the reading 0
    toggles the level at every sample. *)
Theorem debounce_settles (th_on v : Z) (p : bool) (Hth : 1 <= th_on) :
  debounce th_on v (debounce th_on v p) = debounce th_on v p
  /\ (debounce 0 0 false = true /\ debounce 0 0 true = false).
Proof.
  split; [| split; reflexivity ].
  pose proof (TH_OFF_lt th_on Hth) as Hgap.
  rewrite !debounce_cases.
  destruct p; destruct (Z.leb_spec v (TH_OFF th_on));
    destruct (Z.leb_spec th_on v); simpl;
    try reflexivity; try lia;
    repeat match goal with
           | |- context [Z.leb ?a ?b] => destruct (Z.leb_spec a b)
           end; simpl; try reflexivity; lia.
Qed.

Lemma debounce_settles_witness :
  debounce MOTION_TH 80 (debounce MOTION_TH 80 true)
  = debounce MOTION_TH 80 true.
Proof. apply (debounce_settles MOTION_TH 80 true). unfold MOTION_TH. lia. Defined.

(** X7. The level latched by [loop()] depends on the readings alone: along
    any run, whatever the clock values and the state of the animations, the
    levels are those of the detection block fed the same readings. *)
Theorem run_presence_follows_readings (ticks : list (Z * Z)) (g : Globals) :
  map (fun x => presence (fst x)) (run ticks g)
  = map level (debounce_trace MOTION_TH (presence g) (map snd ticks)).
Proof.
  revert g. induction ticks as [| [now v] ticks IH]; intros g; simpl.
  - reflexivity.
  - rewrite IH, loop_presence. reflexivity.
Qed.

(** ** What the blocks of [loop()] keep *)

Arguments renderBlinkFrameAllFaces : simpl never.
Arguments renderBodyAllFaces : simpl never.
Arguments renderBodyFrameForFace : simpl never.

Lemma shown_buffers_app e1 e2 :
  shown_buffers (e1 ++ e2) = shown_buffers e1 ++ shown_buffers e2.
Proof. apply omap_app. Qed.

Lemma renderBlinkFrameAllFaces_buffers useAlt (px : list CRGB) :
  length (fst (renderBlinkFrameAllFaces useAlt px)) = length px
  /\ Forall (fun b => length b = length px)
            (shown_buffers (snd (renderBlinkFrameAllFaces useAlt px))).
Proof.
  unfold renderBlinkFrameAllFaces. cbv zeta.
  destruct (negb useAlt); simpl;
    (split; [ apply drawFrame_length
            | repeat (constructor; [ apply drawFrame_length |]);
              constructor ]).
Qed.

Lemma renderBodyFrameForFace_buffers f idx colors (px : list CRGB) :
  length (fst (renderBodyFrameForFace f idx colors px)) = length px
  /\ shown_buffers (snd (renderBodyFrameForFace f idx colors px))
     = [fst (renderBodyFrameForFace f idx colors px)].
Proof.
  unfold renderBodyFrameForFace. cbv zeta. cbn [fst snd].
  split; [| reflexivity ].
  repeat case_match; apply drawFrame_length.
Qed.

Lemma renderBodyAllFaces_buffers idx colors (px : list CRGB) :
  length (fst (renderBodyAllFaces idx colors px)) = length px
  /\ Forall (fun b => length b = length px)
            (shown_buffers (snd (renderBodyAllFaces idx colors px))).
Proof.
  unfold renderBodyAllFaces.
  destruct (renderBodyFrameForFace_buffers RIGHT idx colors px) as [L1 S1].
  destruct (renderBodyFrameForFace RIGHT idx colors px) as [p1 e1].
  destruct (renderBodyFrameForFace_buffers LEFT idx colors p1) as [L2 S2].
  destruct (renderBodyFrameForFace LEFT idx colors p1) as [p2 e2].
  destruct (renderBodyFrameForFace_buffers BACK idx colors p2) as [L3 S3].
  destruct (renderBodyFrameForFace BACK idx colors p2) as [p3 e3].
  destruct (renderBodyFrameForFace_buffers FRONT idx colors p3) as [L4 S4].
  destruct (renderBodyFrameForFace FRONT idx colors p3) as [p4 e4].
  simpl in *. split; [ congruence |].
  rewrite !shown_buffers_app, S1, S2, S3, S4. simpl.
  repeat constructor; congruence.
Qed.

Lemma blinkFrame_keeps now g :
  let g' := fst (blinkFrame now g) in
  body g' = body g /\ lastStep g' = lastStep g
  /\ bodyColors g' = bodyColors g
  /\ nextColorRotateAt g' = nextColorRotateAt g
  /\ length (leds g') = length (leds g)
  /\ Forall (fun b => length b = length (leds g))
            (shown_buffers (snd (blinkFrame now g))).
Proof.
  unfold blinkFrame.
  destruct (due now (Blink.nextAt (blink g)));
    [| repeat split; constructor ].
  destruct (renderBlinkFrameAllFaces_buffers
              (negb (Z.land (Blink.step (blink g)) 1 =? 0)) (leds g))
    as [Hlen Hbuf].
  destruct (renderBlinkFrameAllFaces
              (negb (Z.land (Blink.step (blink g)) 1 =? 0)) (leds g))
    as [px' evs].
  simpl in *. repeat split; auto.
Qed.

Lemma blinkBlock_keeps now g :
  let g' := fst (fst (blinkBlock now g)) in
  body g' = body g /\ lastStep g' = lastStep g
  /\ bodyColors g' = bodyColors g
  /\ nextColorRotateAt g' = nextColorRotateAt g
  /\ length (leds g') = length (leds g)
  /\ Forall (fun b => length b = length (leds g))
            (shown_buffers (snd (fst (blinkBlock now g)))).
Proof.
  unfold blinkBlock.
  destruct (Blink.active (blink g)); [| repeat split; constructor ].
  pose proof (blinkFrame_keeps now g) as H.
  destruct (blinkFrame now g) as [g1 evs]. simpl in H.
  case_match; simpl; exact H.
Qed.

Lemma idleRotation_keeps now g :
  leds (idleRotation now g) = leds g
  /\ bodyColors (idleRotation now g)
     = (if due now (nextColorRotateAt g) then rotateColors (bodyColors g)
        else bodyColors g)
  /\ nextColorRotateAt (idleRotation now g)
     = (if due now (nextColorRotateAt g)
        then wrap32 (now + COLOR_ROTATE_IDLE_MS) else nextColorRotateAt g).
Proof. unfold idleRotation. case_match; repeat split. Qed.

Lemma bodyBlock_keeps now g :
  let r := bodyBlock now g in
  bodyColors (fst r) = bodyColors g
  /\ nextColorRotateAt (fst r) = nextColorRotateAt g
  /\ length (leds (fst r)) = length (leds g)
  /\ Forall (fun b => length b = length (leds g)) (shown_buffers (snd r))
  /\ body_frames (snd r)
     = (if due now (Body.nextAt (body g))
        then [globalFrameIndex (fst (bodyStep (body g) (lastStep g)))]
        else [])
  /\ (due now (Body.nextAt (body g)) = false -> r = (g, [])).
Proof.
  unfold bodyBlock.
  destruct (due now (Body.nextAt (body g)));
    [| repeat split; constructor ].
  destruct (bodyStep (body g) (lastStep g)) as [b ls]. cbv zeta.
  change (bodyColors (set_lastStep ls (set_body b g))) with (bodyColors g).
  change (leds (set_lastStep ls (set_body b g))) with (leds g).
  destruct (renderBodyAllFaces_buffers (globalFrameIndex b) (bodyColors g)
              (leds g)) as [Hlen Hbuf].
  destruct (renderBodyAllFaces_faces (globalFrameIndex b) (bodyColors g)
              (leds g)) as (_ & _ & Hbf).
  destruct (renderBodyAllFaces (globalFrameIndex b) (bodyColors g) (leds g))
    as [px' evs].
  cbn [fst snd] in *.
  split; [ reflexivity |]. split; [ reflexivity |].
  split; [ exact Hlen |]. split; [ exact Hbuf |].
  split; [| discriminate ].
  change (body_frames (EvBodyFrame (globalFrameIndex b) :: evs))
    with (globalFrameIndex b :: body_frames evs).
  rewrite Hbf. reflexivity.
Qed.

(** ** Ranges kept by [loop()] *)

(** Reduce the projections of the globals and nothing else. *)
Ltac fields :=
  cbn [leds bodyColors nextColorRotateAt body blink presence lastStep
       set_leds set_bodyColors set_nextColorRotateAt set_body set_blink
       set_presence set_lastStep
       Blink.active Blink.step Blink.nextAt Blink.stopAt
       Body.pair Body.stepInPair Body.repsInPair Body.nextAt fst snd] in *.

Lemma next_step_range s :
  0 <= s < BLINK_STEPS_TOTAL ->
  wrap8 (Z.rem (s + 1) BLINK_STEPS_TOTAL) = (s + 1) mod BLINK_STEPS_TOTAL
  /\ 0 <= wrap8 (Z.rem (s + 1) BLINK_STEPS_TOTAL) < BLINK_STEPS_TOTAL.
Proof.
  unfold BLINK_STEPS_TOTAL, wrap8. intros Hs.
  rewrite Z.rem_mod_nonneg by lia.
  pose proof (Z.mod_pos_bound (s + 1) 18 ltac:(lia)) as Hb.
  rewrite (Z.mod_small ((s + 1) mod 18)) by (change (2 ^ 8) with 256; lia).
  split; [reflexivity | exact Hb].
Qed.

Lemma alert_tick_ranges now (b : Blink.t) :
  0 <= Blink.step b < BLINK_STEPS_TOTAL ->
  0 <= Blink.nextAt b < 2 ^ 32 -> 0 <= Blink.stopAt b < 2 ^ 32 ->
  let b' := fst (alert_tick now b) in
  0 <= Blink.step b' < BLINK_STEPS_TOTAL
  /\ 0 <= Blink.nextAt b' < 2 ^ 32 /\ 0 <= Blink.stopAt b' < 2 ^ 32.
Proof.
  intros Hs Hn Hst. unfold alert_tick.
  pose proof (next_step_range (Blink.step b) Hs) as [_ Hs'].
  pose proof (wrap32_range (now + BLINK_PERIOD_MS)) as Hw.
  destruct b as [act st nx stop]. fields.
  destruct act; fields; [| auto ].
  destruct (due now nx); fields; destruct (due now stop); fields; auto.
Qed.

Lemma bodyStep_ranges (b : Body.t) (ls : Z) :
  0 <= Body.pair b <= 1 -> 0 <= Body.stepInPair b <= 1 ->
  0 <= Body.repsInPair b < BODY_REPS_PER_PAIR ->
  let r := bodyStep b ls in
  0 <= Body.pair (fst r) <= 1 /\ 0 <= Body.stepInPair (fst r) <= 1
  /\ 0 <= Body.repsInPair (fst r) < BODY_REPS_PER_PAIR
  /\ Body.nextAt (fst r) = Body.nextAt b
  /\ snd r = Body.stepInPair (fst r).
Proof.
  unfold BODY_REPS_PER_PAIR. intros Hp Hs Hr.
  destruct b as [pr st reps nx]. fields.
  assert (pr = 0 \/ pr = 1) as [-> | ->] by lia;
    assert (st = 0 \/ st = 1) as [-> | ->] by lia;
    assert (reps = 0 \/ reps = 1 \/ reps = 2 \/ reps = 3 \/ reps = 4)
      as [-> | [-> | [-> | [-> | ->]]]] by lia;
    unfold bodyStep, wrap8; cbn [Body.pair Body.stepInPair Body.repsInPair
                                  Body.nextAt];
    destruct (ls =? 1); vm_compute; repeat split; congruence.
Qed.

Lemma bodyBlock_body now g :
  let r := bodyBlock now g in
  blink (fst r) = blink g
  /\ body (fst r)
     = (if due now (Body.nextAt (body g))
        then let b := fst (bodyStep (body g) (lastStep g)) in
             Body.mk (Body.pair b) (Body.stepInPair b) (Body.repsInPair b)
                     (wrap32 (now + BODY_PERIOD_MS))
        else body g)
  /\ lastStep (fst r)
     = (if due now (Body.nextAt (body g))
        then snd (bodyStep (body g) (lastStep g)) else lastStep g).
Proof.
  unfold bodyBlock.
  destruct (due now (Body.nextAt (body g))); [| repeat split ].
  destruct (bodyStep (body g) (lastStep g)) as [b ls]. cbv zeta.
  destruct (renderBodyAllFaces _ _ _) as [px' evs]. repeat split.
Qed.

Lemma startBlink_consistent now g :
  0 <= now < 2 ^ 32 -> consistent g -> consistent (startBlink now g).
Proof.
  intros Hnow (H1 & H2 & H3 & H4 & H5 & H6 & H7 & H8 & H9 & H10 & H11).
  unfold consistent, startBlink. fields.
  pose proof (wrap32_range (now + BLINK_DURATION_MS)).
  pose proof (wrap32_range (now + COLOR_ROTATE_IDLE_MS)).
  pose proof (rotateColors_length (bodyColors g) H2).
  unfold BLINK_STEPS_TOTAL in *. repeat split; auto; lia.
Qed.

Lemma blinkBlock_consistent now g :
  consistent g -> consistent (fst (fst (blinkBlock now g))).
Proof.
  intros (H1 & H2 & H3 & H4 & H5 & H6 & H7 & H8 & H9 & H10 & H11).
  destruct (blinkBlock_keeps now g) as (E1 & E2 & E3 & E4 & E5 & _).
  destruct (blinkBlock_spec now g) as (E6 & _).
  destruct (alert_tick_ranges now (blink g) H3 H10 H11) as (R1 & R2 & R3).
  cbv zeta in *. unfold consistent.
  rewrite E1, E2, E3, E4, E5, E6. repeat split; auto; lia.
Qed.

Lemma idleRotation_consistent now g :
  consistent g -> consistent (idleRotation now g).
Proof.
  intros (H1 & H2 & H3 & H4 & H5 & H6 & H7 & H8 & H9 & H10 & H11).
  pose proof (wrap32_range (now + COLOR_ROTATE_IDLE_MS)).
  pose proof (rotateColors_length (bodyColors g) H2).
  unfold idleRotation, consistent. case_match; fields;
    repeat split; auto; lia.
Qed.

Lemma bodyBlock_consistent now g :
  consistent g -> consistent (fst (bodyBlock now g)).
Proof.
  intros (H1 & H2 & H3 & H4 & H5 & H6 & H7 & H8 & H9 & H10 & H11).
  destruct (bodyBlock_keeps now g) as (E1 & E2 & E3 & _).
  destruct (bodyBlock_body now g) as (E4 & E5 & E6).
  destruct (bodyStep_ranges (body g) (lastStep g) H4 H5 H6)
    as (R1 & R2 & R3 & R4 & R5).
  pose proof (wrap32_range (now + BODY_PERIOD_MS)).
  cbv zeta in *. unfold consistent.
  rewrite E1, E2, E3, E4, E5, E6.
  destruct (due now (Body.nextAt (body g))); fields;
    repeat split; auto; try lia; rewrite ?R5; lia.
Qed.

Lemma loop_consistent now v g :
  0 <= now < 2 ^ 32 -> consistent g -> consistent (fst (loop now v g)).
Proof.
  intros Hnow Hg. rewrite loop_unfold. cbv zeta.
  set (g1 := set_presence _ g).
  assert (consistent g1) as Hg1 by exact Hg.
  set (g2 := if rising _ _ then _ else _).
  assert (consistent g2) as Hg2.
  { unfold g2. case_match; [ apply startBlink_consistent |]; assumption. }
  pose proof (blinkBlock_consistent now g2 Hg2) as Hg3.
  destruct (snd (blinkBlock now g2)); [ exact Hg3 |].
  apply bodyBlock_consistent, idleRotation_consistent. exact Hg3.
Qed.

Lemma setup_consistent now : consistent (setup now initial).
Proof.
  pose proof (wrap32_range (now + BODY_PERIOD_MS)).
  pose proof (wrap32_range (now + COLOR_ROTATE_IDLE_MS)).
  unfold consistent, setup, initial. fields.
  rewrite fill_solid_replicate by apply length_replicate.
  rewrite length_replicate.
  unfold BLINK_STEPS_TOTAL, BODY_REPS_PER_PAIR, FACES.
  repeat split; auto; lia.
Qed.

(** X8. The sketch keeps its globals within their ranges. The globals left
    by [setup()] are consistent, and from consistent globals every
    iteration of a run whose clock values are 32-bit leaves consistent
    globals: the buffer keeps 256 pixels and the assignment 4 colours, the
    blink step stays below 18, the body selectors stay bits, the repetition
    count stays below 5 and the deadlines stay 32-bit values. *)
Theorem run_keeps_consistent (ticks : list (Z * Z)) (g : Globals)
    (now0 : Z) (Hg : consistent g)
    (Hclock : Forall (fun t => 0 <= fst t < 2 ^ 32) ticks) :
  Forall (fun x => consistent (fst x)) (run ticks g)
  /\ consistent (setup now0 initial).
Proof.
  split; [| apply setup_consistent ].
  revert g Hg. induction Hclock as [| [now v] ticks Hnow _ IH];
    intros g Hg; simpl.
  - constructor.
  - pose proof (loop_consistent now v g Hnow Hg) as Hg'.
    constructor; [ exact Hg' | apply IH; exact Hg' ].
Qed.

Lemma run_keeps_consistent_witness :
  Forall (fun x => consistent (fst x))
         (run (every_ms 4294967290 [0; 100; 0; 0])
              (setup 4294967290 initial)).
Proof.
  refine (proj1 (run_keeps_consistent (every_ms 4294967290 [0; 100; 0; 0])
                   (setup 4294967290 initial) 0 _ _)).
  - vm_compute. repeat split; congruence.
  - simpl. repeat constructor; cbn [fst]; lia.
Defined.

(** ** Iterations of [loop()] seen from outside *)

(** On a rising edge the blink block finds a blink that has just started,
    renders its first frame and returns from [loop()]. *)
Lemma loop_rising_returns now v g :
  rising (presence g) (debounce MOTION_TH v (presence g)) = true ->
  let g2 := startBlink now
              (set_presence (debounce MOTION_TH v (presence g)) g) in
  loop now v g = fst (blinkBlock now g2)
  /\ Blink.active (blink (fst (fst (blinkBlock now g2)))) = true
  /\ blink_frames (snd (fst (blinkBlock now g2))) = [(0, false)].
Proof.
  intros Hedge. cbv zeta. rewrite loop_unfold. cbv zeta. rewrite Hedge.
  set (g2 := startBlink now _).
  destruct (blinkBlock_spec now g2) as (Hb & Hf & _ & _ & _ & Hret).
  assert (alert_tick now (blink g2)
          = (Blink.mk true 1 (wrap32 (now + BLINK_PERIOD_MS))
                      (wrap32 (now + BLINK_DURATION_MS)), [(0, false)]))
    as Htick.
  { unfold g2, startBlink, alert_tick. fields.
    rewrite due_now, not_due_before_stop. reflexivity. }
  rewrite Htick in Hb, Hf. rewrite Hret, Hb. fields.
  repeat split; assumption.
Qed.

Lemma loop_buffers now v g :
  length (leds (fst (loop now v g))) = length (leds g)
  /\ Forall (fun b => length b = length (leds g))
            (shown_buffers (snd (loop now v g))).
Proof.
  rewrite loop_unfold. cbv zeta.
  set (g2 := if rising _ _ then _ else _).
  assert (leds g2 = leds g) as Hg2 by (unfold g2; case_match; reflexivity).
  destruct (blinkBlock_keeps now g2) as (_ & _ & _ & _ & Hlen & Hbuf).
  cbv zeta in Hlen. rewrite Hg2 in Hlen, Hbuf.
  destruct (snd (blinkBlock now g2)); [ split; assumption |].
  cbn [fst snd].
  set (g3 := fst (fst (blinkBlock now g2))) in *.
  destruct (idleRotation_keeps now g3) as (Hleds & _).
  destruct (bodyBlock_keeps now (idleRotation now g3))
    as (_ & _ & Hlen' & Hbuf' & _).
  cbv zeta in Hlen', Hbuf'. rewrite Hleds, Hlen in Hlen', Hbuf'.
  split; [ exact Hlen' |].
  rewrite shown_buffers_app. apply Forall_app. split; assumption.
Qed.

(** X9. Every transaction of a run transmits a full frame: from a buffer
    of 256 pixels, each buffer handed to a controller by any iteration has
    256 pixels. *)
Theorem run_publishes_full_buffers (ticks : list (Z * Z)) (g : Globals)
    (Hlen : length (leds g) = NUM_LEDS_PER_FACE) :
  Forall (fun x => length (leds (fst x)) = NUM_LEDS_PER_FACE
                   /\ Forall (fun b => length b = NUM_LEDS_PER_FACE)
                             (shown_buffers (snd x)))
         (run ticks g).
Proof.
  revert g Hlen. induction ticks as [| [now v] ticks IH]; intros g Hlen;
    simpl; constructor.
  - destruct (loop_buffers now v g) as [H1 H2]. rewrite Hlen in H1, H2.
    split; assumption.
  - apply IH. destruct (loop_buffers now v g) as [H1 _]. congruence.
Qed.

Lemma run_publishes_full_buffers_witness :
  Forall (fun x => length (leds (fst x)) = NUM_LEDS_PER_FACE
                   /\ Forall (fun b => length b = NUM_LEDS_PER_FACE)
                             (shown_buffers (snd x)))
         (run (every_ms 100 [0; 100]) (setup 0 initial)).
Proof.
  apply (run_publishes_full_buffers (every_ms 100 [0; 100])
           (setup 0 initial)).
  vm_compute. reflexivity.
Defined.



Lemma loop_body_frames now v g :
  let r := loop now v g in
  body_frames (snd r)
  = (if Blink.active (blink (fst r)) then []
     else if due now (Body.nextAt (body g))
          then [globalFrameIndex (fst (bodyStep (body g) (lastStep g)))]
          else [])
  /\ (Blink.active (blink (fst r)) = true ->
      body (fst r) = body g /\ lastStep (fst r) = lastStep g).
Proof.
  cbv zeta. rewrite loop_unfold. cbv zeta.
  set (g2 := if rising _ _ then _ else _).
  assert (body g2 = body g /\ lastStep g2 = lastStep g) as [Hb2 Hl2].
  { unfold g2. case_match; split; reflexivity. }
  destruct (blinkBlock_keeps now g2) as (E1 & E2 & _).
  destruct (blinkBlock_spec now g2) as (_ & _ & Hbd & _ & _ & Hret).
  cbv zeta in *. set (g3 := fst (fst (blinkBlock now g2))) in *.
  rewrite Hret. destruct (Blink.active (blink g3)) eqn:Hact.
  - fold g3. rewrite Hact.
    split; [ exact Hbd | intros _; split; congruence ].
  - cbn [fst snd].
    destruct (bodyBlock_spec now (idleRotation now g3)) as (Hbl & _).
    destruct (idleRotation_spec now g3) as (Hbl' & _ & Hbody & Hls).
    destruct (bodyBlock_keeps now (idleRotation now g3))
      as (_ & _ & _ & _ & Hfr & _).
    cbv zeta in *. rewrite Hbl, Hbl', Hact, body_frames_app, Hbd, Hfr.
    rewrite Hbody, Hls, E1, E2, Hb2, Hl2. split; [ reflexivity |].
    discriminate.
Qed.

(** X11. The alert preempts the body animation: an iteration that leaves
    the alert active renders no body frame and does not touch the body
    counters; an iteration that leaves it inactive renders a body frame
    exactly when the body deadline is due, the frame of the counters just
    advanced. *)
Theorem alert_preempts_body (now v : Z) (g : Globals) :
  let r := loop now v g in
  body_frames (snd r)
  = (if Blink.active (blink (fst r)) then []
     else if due now (Body.nextAt (body g))
          then [globalFrameIndex (fst (bodyStep (body g) (lastStep g)))]
          else [])
  /\ (Blink.active (blink (fst r)) = true ->
      body (fst r) = body g /\ lastStep (fst r) = lastStep g).
Proof. apply loop_body_frames. Qed.

(** X12. An iteration with nothing to do does nothing: without a rising
    edge, with the alert inactive and neither the rotation nor the body
    deadline due, [loop()] publishes nothing and changes nothing but the
    latched level. *)
Theorem idle_iteration_is_noop (now v : Z) (g : Globals)
    (Hquiet : rising (presence g) (debounce MOTION_TH v (presence g)) = false)
    (Hidle : Blink.active (blink g) = false)
    (Hrot : due now (nextColorRotateAt g) = false)
    (Hbody : due now (Body.nextAt (body g)) = false) :
  loop now v g = (set_presence (debounce MOTION_TH v (presence g)) g, []).
Proof.
  rewrite loop_unfold. cbv zeta. rewrite Hquiet.
  set (g1 := set_presence _ g).
  assert (blinkBlock now g1 = (g1, [], false)) as ->.
  { unfold blinkBlock. change (blink g1) with (blink g). rewrite Hidle.
    reflexivity. }
  cbn [fst snd].
  assert (idleRotation now g1 = g1) as ->.
  { unfold idleRotation. change (nextColorRotateAt g1)
      with (nextColorRotateAt g). rewrite Hrot. reflexivity. }
  destruct (bodyBlock_keeps now g1) as (_ & _ & _ & _ & _ & Hno).
  rewrite (Hno Hbody). reflexivity.
Qed.

Lemma idle_iteration_is_noop_witness :
  loop 50 0 (setup 0 initial)
  = (set_presence (debounce MOTION_TH 0 (presence (setup 0 initial)))
                  (setup 0 initial), []).
Proof.
  apply (idle_iteration_is_noop 50 0 (setup 0 initial)); reflexivity.
Defined.

Lemma loop_colors now v g :
  let r := loop now v g in
  bodyColors (fst r)
  = (if rising (presence g) (debounce MOTION_TH v (presence g))
     then rotateColors (bodyColors g)
     else if Blink.active (blink (fst r)) then bodyColors g
          else if due now (nextColorRotateAt g)
               then rotateColors (bodyColors g)
               else bodyColors g).
Proof.
  cbv zeta.
  destruct (rising (presence g) (debounce MOTION_TH v (presence g)))
    eqn:Hedge.
  - destruct (loop_rising_returns now v g Hedge) as (-> & _ & _).
    set (g2 := startBlink now _).
    destruct (blinkBlock_keeps now g2) as (_ & _ & E3 & _).
    cbv zeta in E3. rewrite E3. reflexivity.
  - rewrite loop_unfold. cbv zeta. rewrite Hedge.
    set (g1 := set_presence _ g).
    destruct (blinkBlock_keeps now g1) as (_ & _ & E3 & E4 & _).
    destruct (blinkBlock_spec now g1) as (_ & _ & _ & _ & _ & Hret).
    cbv zeta in *. set (g3 := fst (fst (blinkBlock now g1))) in *.
    rewrite Hret. destruct (Blink.active (blink g3)) eqn:Hact.
    + fold g3. rewrite Hact. exact E3.
    + cbn [fst snd].
      destruct (bodyBlock_spec now (idleRotation now g3)) as (Hbl & _).
      destruct (idleRotation_spec now g3) as (Hbl' & _).
      destruct (bodyBlock_keeps now (idleRotation now g3)) as (Hc & _).
      destruct (idleRotation_keeps now g3) as (_ & Hc' & _).
      cbv zeta in *. rewrite Hbl, Hbl', Hact, Hc, Hc', E3, E4. reflexivity.
Qed.

(** X13. The colours rotate in an iteration exactly when it sees a rising
    edge, or when it leaves the alert inactive and finds the rotation
    deadline due; in every case at most once. While the alert stays active
    a due idle rotation waits. *)
Theorem rotation_happens_once (now v : Z) (g : Globals) :
  let r := loop now v g in
  bodyColors (fst r)
  = (if rising (presence g) (debounce MOTION_TH v (presence g))
     then rotateColors (bodyColors g)
     else if Blink.active (blink (fst r)) then bodyColors g
          else if due now (nextColorRotateAt g)
               then rotateColors (bodyColors g)
               else bodyColors g).
Proof. apply loop_colors. Qed.

Lemma run_colors ticks :
  forall (cs : list CRGB) (g : Globals) (k : nat),
  length cs = FACES -> (k < 4)%nat ->
  bodyColors g = Nat.iter k rotateColors cs ->
  Forall (fun x => exists k', (k' < 4)%nat
                   /\ bodyColors (fst x) = Nat.iter k' rotateColors cs)
         (run ticks g).
Proof.
  induction ticks as [| [now v] ticks IH]; intros cs g k Hlen Hk Hg; simpl.
  - constructor.
  - assert (exists k', (k' < 4)%nat
              /\ bodyColors (fst (loop now v g))
                 = Nat.iter k' rotateColors cs) as (k' & Hk' & Hg').
    { pose proof (loop_colors now v g) as Hc. cbv zeta in Hc.
      assert (bodyColors (fst (loop now v g)) = bodyColors g
              \/ bodyColors (fst (loop now v g))
                 = rotateColors (bodyColors g)) as [He | He].
      { rewrite Hc. repeat case_match; auto. }
      - exists k. split; [ exact Hk | congruence ].
      - destruct (decide (S k = 4%nat)) as [Hfour | Hless].
        + exists 0%nat. split; [ lia |]. rewrite He, Hg.
          change (rotateColors (Nat.iter k rotateColors cs))
            with (Nat.iter (S k) rotateColors cs).
          rewrite Hfour. apply rotateColors_four_times. exact Hlen.
        + exists (S k). split; [ lia |]. rewrite He, Hg. reflexivity. }
    constructor.
    + exists k'. split; assumption.
    + apply (IH cs _ k'); assumption.
Qed.

(** X14. The colour assignment is only ever rotated: after every iteration
    of any run it is the assignment the run started with, rotated 0, 1, 2
    or 3 times; no colour is lost, duplicated or introduced. *)
Theorem run_colors_are_rotations (ticks : list (Z * Z)) (g : Globals)
    (Hlen : length (bodyColors g) = FACES) :
  Forall (fun x => exists k, (k < 4)%nat
                   /\ bodyColors (fst x)
                      = Nat.iter k rotateColors (bodyColors g))
         (run ticks g).
Proof. apply (run_colors ticks (bodyColors g) g 0); [ exact Hlen | lia | reflexivity ]. Qed.

Lemma run_colors_are_rotations_witness :
  Forall (fun x => exists k, (k < 4)%nat
                   /\ bodyColors (fst x)
                      = Nat.iter k rotateColors (bodyColors initial))
         (run (every_ms 0 [100; 0; 100]) (setup 0 initial)).
Proof.
  apply (run_colors_are_rotations (every_ms 0 [100; 0; 100])
           (setup 0 initial)).
  reflexivity.
Defined.

Lemma alert_tick_frames now (b : Blink.t) :
  (length (snd (alert_tick now b)) <= 1)%nat
  /\ (snd (alert_tick now b) <> [] -> Blink.active b = true).
Proof.
  unfold alert_tick. destruct (Blink.active b); [| split; [ simpl; lia | tauto ] ].
  destruct (due now (Blink.nextAt b)); fields;
    destruct (due now _); fields; split; simpl; auto; lia.
Qed.

Lemma flat_map_const_length {A} (l : list A) (fs : list Face) :
  length (flat_map (fun _ => fs) l) = (length l * length fs)%nat.
Proof.
  induction l as [| x l IH]; simpl; [ reflexivity |].
  rewrite length_app, IH. reflexivity.
Qed.

(** X15. An iteration does a bounded amount of output: at most one alert
    frame and at most one body frame, hence at most eight transactions.
    Both frames come together only in the iteration that ends an alert,
    which renders a last alert frame and falls through to the body
    animation. *)
Theorem loop_bounded_work (now v : Z) (g : Globals) :
  let r := loop now v g in
  (length (blink_frames (snd r)) <= 1)%nat
  /\ (length (body_frames (snd r)) <= 1)%nat
  /\ (length (shown_faces (snd r)) <= 8)%nat
  /\ (blink_frames (snd r) <> [] -> body_frames (snd r) <> [] ->
      Blink.active (blink g) = true
      /\ Blink.active (blink (fst r)) = false).
Proof.
  cbv zeta.
  destruct (loop_blink now v g) as [Hb Hf].
  destruct (loop_body_frames now v g) as [Hbody _]. cbv zeta in *.
  set (b := if rising _ _ then _ else _) in *.
  destruct (alert_tick_frames now b) as [Hlen Hact].
  assert (length (body_frames (snd (loop now v g))) <= 1)%nat as Hlen'.
  { rewrite Hbody. repeat case_match; simpl; lia. }
  split; [ rewrite Hf; exact Hlen |]. split; [ exact Hlen' |].
  split.
  - rewrite loop_faces, length_app, !flat_map_const_length.
    rewrite Hf. simpl. lia.
  - intros Hbf Hbd. rewrite Hf in Hbf. specialize (Hact Hbf).
    destruct (Blink.active (blink (fst (loop now v g)))) eqn:Hafter;
      [ rewrite Hbody in Hbd; congruence |].
    split; [| reflexivity ].
    destruct (rising (presence g) (debounce MOTION_TH v (presence g)))
      eqn:Hedge; [| exact Hact ].
    destruct (loop_rising_tick now v g Hedge) as [Hb' _].
    rewrite Hb' in Hafter. discriminate.
Qed.

(** ** Alternation of the alert frames *)






(** ** Period of the body animation *)

(** X17. The body animation repeats every 20 due ticks: from any counters
    in range, with [lastStep] equal to the step as every due tick leaves
    it, twenty ticks bring the counters back. From the initial counters
    the twenty frames are 1, 0, 1, 0, 1, 0, 1, 0, 1, 2 and then
    3, 2, 3, 2, 3, 2, 3, 2, 3, 0: the pair changes every ten ticks. *)
Theorem body_schedule_period (b : Body.t) (nx : Z)
    (Hpair : 0 <= Body.pair b <= 1)
    (Hstep : 0 <= Body.stepInPair b <= 1)
    (Hreps : 0 <= Body.repsInPair b < BODY_REPS_PER_PAIR) :
  body_ticks 20 b (Body.stepInPair b) = (b, Body.stepInPair b)
  /\ map (fun n => globalFrameIndex
                     (fst (body_ticks n (Body.mk 0 0 0 nx) 1)))
         (seq 1 20)
     = [1; 0; 1; 0; 1; 0; 1; 0; 1; 2; 3; 2; 3; 2; 3; 2; 3; 2; 3; 0].
Proof.
  split; [| reflexivity ].
  unfold BODY_REPS_PER_PAIR in Hreps.
  destruct b as [pr st reps nxt]. fields.
  assert (pr = 0 \/ pr = 1) as [-> | ->] by lia;
    assert (st = 0 \/ st = 1) as [-> | ->] by lia;
    assert (reps = 0 \/ reps = 1 \/ reps = 2 \/ reps = 3 \/ reps = 4)
      as [-> | [-> | [-> | [-> | ->]]]] by lia;
    reflexivity.
Qed.

Lemma body_schedule_period_witness :
  body_ticks 20 (Body.mk 1 1 3 700) 1 = (Body.mk 1 1 3 700, 1).
Proof.
  refine (proj1 (body_schedule_period (Body.mk 1 1 3 700) 0 _ _ _));
    unfold BODY_REPS_PER_PAIR; simpl; lia.
Defined.

(** ** The shared buffer *)

Lemma last_app_default {A} (l1 l2 : list A) (d : A) :
  List.last (l1 ++ l2) d = List.last l2 (List.last l1 d).
Proof.
  revert l2 d. induction l1 as [| x l1 IH]; intros l2 d.
  - reflexivity.
  - destruct l1 as [| y l1].
    + simpl. destruct l2 as [| z l2]; [ reflexivity |].
      revert z. induction l2 as [| w l2 IH2]; intros z; [ reflexivity |].
      simpl in *. apply IH2.
    + change (List.last ((x :: y :: l1) ++ l2) d)
        with (List.last ((y :: l1) ++ l2) d).
      change (List.last (x :: y :: l1) d) with (List.last (y :: l1) d).
      apply IH.
Qed.

Lemma renderBodyFrameForFace_fresh f idx colors (px : list CRGB) :
  length px = NUM_LEDS_PER_FACE ->
  renderBodyFrameForFace f idx colors px
  = renderBodyFrameForFace f idx colors (replicate NUM_LEDS_PER_FACE Black).
Proof.
  intros Hlen. unfold renderBodyFrameForFace. cbv zeta.
  repeat case_match;
    rewrite (drawFrame_fresh _ _ _ _ _ _ px Hlen); reflexivity.
Qed.

(** X18. The faces share one buffer but not their pictures. The four
    transactions of an alert frame carry the same picture; the four of a
    body frame carry, for each face, the frame drawn with that face's
    colour alone, as if on a fresh buffer: nothing of the frame drawn for
    the previous face shows through. *)
Theorem faces_do_not_bleed (useAlt : bool) (idx : Z) (colors px : list CRGB)
    (Hlen : length px = NUM_LEDS_PER_FACE) :
  shown_buffers (snd (renderBlinkFrameAllFaces useAlt px))
  = replicate 4 (fst (renderBlinkFrameAllFaces useAlt px))
  /\ shown_buffers (snd (renderBodyAllFaces idx colors px))
     = map (fun f => fst (renderBodyFrameForFace f idx colors
                            (replicate NUM_LEDS_PER_FACE Black)))
           [RIGHT; LEFT; BACK; FRONT].
Proof.
  split; [ reflexivity |].
  unfold renderBodyAllFaces.
  rewrite (renderBodyFrameForFace_fresh RIGHT idx colors px Hlen).
  destruct (renderBodyFrameForFace_buffers RIGHT idx colors
              (replicate NUM_LEDS_PER_FACE Black)) as [L1 S1].
  destruct (renderBodyFrameForFace RIGHT idx colors
              (replicate NUM_LEDS_PER_FACE Black)) as [p1 e1] eqn:E1.
  rewrite length_replicate in L1. cbn [fst snd] in *.
  rewrite (renderBodyFrameForFace_fresh LEFT idx colors p1 L1).
  destruct (renderBodyFrameForFace_buffers LEFT idx colors
              (replicate NUM_LEDS_PER_FACE Black)) as [L2 S2].
  destruct (renderBodyFrameForFace LEFT idx colors
              (replicate NUM_LEDS_PER_FACE Black)) as [p2 e2] eqn:E2.
  rewrite length_replicate in L2. cbn [fst snd] in *.
  rewrite (renderBodyFrameForFace_fresh BACK idx colors p2 L2).
  destruct (renderBodyFrameForFace_buffers BACK idx colors
              (replicate NUM_LEDS_PER_FACE Black)) as [L3 S3].
  destruct (renderBodyFrameForFace BACK idx colors
              (replicate NUM_LEDS_PER_FACE Black)) as [p3 e3] eqn:E3.
  rewrite length_replicate in L3. cbn [fst snd] in *.
  rewrite (renderBodyFrameForFace_fresh FRONT idx colors p3 L3).
  destruct (renderBodyFrameForFace_buffers FRONT idx colors
              (replicate NUM_LEDS_PER_FACE Black)) as [L4 S4].
  destruct (renderBodyFrameForFace FRONT idx colors
              (replicate NUM_LEDS_PER_FACE Black)) as [p4 e4] eqn:E4.
  cbn [fst snd map] in *. rewrite E1, E2, E3, E4. cbn [fst].
  rewrite !shown_buffers_app, S1, S2, S3, S4. reflexivity.
Qed.

Lemma faces_do_not_bleed_witness :
  shown_buffers (snd (renderBodyAllFaces 0 (bodyColors initial)
                                         (leds initial)))
  = map (fun f => fst (renderBodyFrameForFace f 0 (bodyColors initial)
                         (replicate NUM_LEDS_PER_FACE Black)))
        [RIGHT; LEFT; BACK; FRONT].
Proof.
  apply (faces_do_not_bleed false 0 (bodyColors initial) (leds initial)).
  reflexivity.
Defined.

Lemma blinkBlock_last now g :
  List.last (shown_buffers (snd (fst (blinkBlock now g)))) (leds g)
  = leds (fst (fst (blinkBlock now g))).
Proof.
  unfold blinkBlock.
  destruct (Blink.active (blink g)); [| reflexivity ].
  assert (List.last (shown_buffers (snd (blinkFrame now g))) (leds g)
          = leds (fst (blinkFrame now g))) as H.
  { unfold blinkFrame. cbv zeta.
    destruct (due now (Blink.nextAt (blink g))); [| reflexivity ].
    destruct (renderBlinkFrameAllFaces _ (leds g)) as [px' evs] eqn:E.
    unfold renderBlinkFrameAllFaces in E. cbv zeta in E.
    inversion E; subst. reflexivity. }
  destruct (blinkFrame now g) as [g1 evs]. cbn [fst snd] in *.
  case_match; exact H.
Qed.

Lemma renderBodyAllFaces_last idx colors (px d : list CRGB) :
  List.last (shown_buffers (snd (renderBodyAllFaces idx colors px))) d
  = fst (renderBodyAllFaces idx colors px).
Proof.
  unfold renderBodyAllFaces.
  destruct (renderBodyFrameForFace RIGHT idx colors px) as [p1 e1].
  destruct (renderBodyFrameForFace LEFT idx colors p1) as [p2 e2].
  destruct (renderBodyFrameForFace BACK idx colors p2) as [p3 e3].
  destruct (renderBodyFrameForFace_buffers FRONT idx colors p3) as [_ S4].
  destruct (renderBodyFrameForFace FRONT idx colors p3) as [p4 e4].
  cbn [fst snd] in *.
  rewrite !shown_buffers_app, !last_app_default, S4. reflexivity.
Qed.

Lemma bodyBlock_last now g :
  List.last (shown_buffers (snd (bodyBlock now g))) (leds g)
  = leds (fst (bodyBlock now g)).
Proof.
  unfold bodyBlock.
  destruct (due now (Body.nextAt (body g))); [| reflexivity ].
  destruct (bodyStep (body g) (lastStep g)) as [b ls]. cbv zeta.
  change (bodyColors (set_lastStep ls (set_body b g))) with (bodyColors g).
  change (leds (set_lastStep ls (set_body b g))) with (leds g).
  pose proof (renderBodyAllFaces_last (globalFrameIndex b) (bodyColors g)
                (leds g) (leds g)) as H.
  destruct (renderBodyAllFaces _ _ _) as [px' evs]. cbn [fst snd] in *.
  exact H.
Qed.

(** X19. The shared buffer always holds the picture sent last: after an
    iteration that publishes something, [leds] is the buffer of its last
    transaction, and an iteration that publishes nothing leaves [leds] as
    it was. *)
Theorem buffer_holds_last_frame (now v : Z) (g : Globals) :
  List.last (shown_buffers (snd (loop now v g))) (leds g)
  = leds (fst (loop now v g)).
Proof.
  rewrite loop_unfold. cbv zeta.
  set (g2 := if rising _ _ then _ else _).
  assert (leds g2 = leds g) as Hg2 by (unfold g2; case_match; reflexivity).
  pose proof (blinkBlock_last now g2) as Hb. rewrite Hg2 in Hb.
  destruct (snd (blinkBlock now g2)); [ exact Hb |].
  cbn [fst snd]. set (g3 := fst (fst (blinkBlock now g2))) in *.
  destruct (idleRotation_keeps now g3) as (Hleds & _).
  pose proof (bodyBlock_last now (idleRotation now g3)) as Hbody.
  rewrite Hleds in Hbody.
  rewrite shown_buffers_app, last_app_default, Hb. exact Hbody.
Qed.
